(** * WorkSphere matching: a model of [matching_logic.py]

    The module ranks job postings for a worker by the cosine similarity of
    TF-IDF vectors.  This file embeds its functions
    ([preprocessar_texto], [criar_documento], [inicializar_matcher],
    [encontrar_matches_para_trabalhador]) and proves the properties the
    specification states about them.

    Conventions of the model.
    - A Python [str] is a [string] whose characters are code points; the
      model covers the code points 0..255 (Latin-1), which contain every
      character of the sample data.  The tables for [str.lower], [\w] and
      [\s] below are the Unicode ones restricted to that range.
    - A Python [dict] with string keys is a [gmap string pyval].
    - A NumPy [float64] read by the ranker is [NaN], an infinity, or a
      finite value kept as an exact rational: the ranker compares and
      rounds the scores, it does no arithmetic on them.  Where the scores
      are computed, in the similarity matrix, a [float64] is the kernel's
      binary64 [float], whose operations round as the ones of NumPy do.
    - [print] appends to [stdout], kept in the state, newest line first.
    - [TfidfVectorizer.fit_transform] and [cosine_similarity] belong to
      scikit-learn; the matcher takes them as parameters.
    - The handler of [api.py] that calls the matcher is embedded too; its
      calls of the logger are kept as entries of a log. *)

From Stdlib Require Import Floats.
From Stdlib Require Import ZArith QArith Reals Lra Lia List String Ascii Bool.
From Stdlib Require Import Sorted Permutation.
From stdpp Require Import gmap strings pretty.

Open Scope string_scope.

(** ** Characters and strings *)

Module Latin1.

Definition cp (c : ascii) : N := N_of_ascii c.

Definition between (lo hi : N) (c : ascii) : bool :=
  ((lo <=? cp c) && (cp c <=? hi))%N.

(** [\w] of the [re] module on [str] patterns: alphanumeric or underscore. *)
Definition is_word (c : ascii) : bool :=
  between 48 57 c || between 65 90 c || between 95 95 c
  || between 97 122 c || between 170 170 c || between 178 179 c
  || between 181 181 c || between 185 186 c || between 188 190 c
  || between 192 214 c || between 216 246 c || between 248 255 c.

(** [\W] is the complement of [\w]. *)
Definition is_nonword (c : ascii) : bool := negb (is_word c).

(** [\s], which is also what [str.strip] removes. *)
Definition is_space (c : ascii) : bool :=
  between 9 13 c || between 28 32 c || between 133 133 c
  || between 160 160 c.

(** [str.lower] on one code point. *)
Definition lower_char (c : ascii) : ascii :=
  if between 65 90 c || between 192 214 c || between 216 222 c
  then ascii_of_N (cp c + 32)
  else c.

(** String literals of this file are written in UTF-8; [u] turns the
    two-byte sequences of the range 128..255 into their code points. *)
Fixpoint u (s : string) : string :=
  match s with
  | EmptyString => EmptyString
  | String c r =>
      match r with
      | EmptyString => String c EmptyString
      | String d t =>
          if (cp c =? 194)%N then String d (u t)
          else if (cp c =? 195)%N then String (ascii_of_N (cp d + 64)) (u t)
          else String c (u r)
      end
  end.

End Latin1.

Module Str.
Import Latin1.

(** [s.lower()] *)
Fixpoint lower (s : string) : string :=
  match s with
  | EmptyString => EmptyString
  | String c t => String (lower_char c) (lower t)
  end.

(** The longest prefix of characters of a class is dropped. *)
Fixpoint skip (cls : ascii -> bool) (s : string) : string :=
  match s with
  | EmptyString => EmptyString
  | String c t => if cls c then skip cls t else s
  end.

(** [re.sub(p, repl, s)] for a pattern [p] of the form [C+], [C] a
    character class: scanning from the left, a character of the class
    starts a match, the match is extended greedily, the replacement is
    emitted once for it, and scanning resumes after the match. *)
Fixpoint re_sub_plus (cls : ascii -> bool) (repl : string) (s : string)
  : string :=
  match s with
  | EmptyString => EmptyString
  | String c t =>
      if cls c then
        repl +:+
          (fix consume (r : string) : string :=
             match r with
             | EmptyString => EmptyString
             | String d r' =>
                 if cls d then consume r'
                 else String d (re_sub_plus cls repl r')
             end) t
      else String c (re_sub_plus cls repl t)
  end.

(** [s.lstrip()], [s.rstrip()], [s.strip()] *)
Definition lstrip (s : string) : string := skip is_space s.

Fixpoint rstrip (s : string) : string :=
  match s with
  | EmptyString => EmptyString
  | String c t =>
      match rstrip t with
      | EmptyString => if is_space c then EmptyString else String c EmptyString
      | r => String c r
      end
  end.

Definition strip (s : string) : string := rstrip (lstrip s).

(** Every character satisfies [p]. *)
Fixpoint all (p : ascii -> bool) (s : string) : bool :=
  match s with
  | EmptyString => true
  | String c t => p c && all p t
  end.

(** First and last character. *)
Definition first (s : string) : option ascii :=
  match s with EmptyString => None | String c _ => Some c end.

Fixpoint last (s : string) : option ascii :=
  match s with
  | EmptyString => None
  | String c EmptyString => Some c
  | String _ t => last t
  end.

End Str.

(** ** Python values and dictionaries *)

Inductive pyval : Type :=
| PNone
| PBool (b : bool)
| PInt (z : Z)
| PStr (s : string).

Abbreviation dict := (gmap string pyval).

(** [isinstance(v, str)] *)
Definition is_str (v : pyval) : bool :=
  match v with PStr _ => true | _ => false end.

(** [v == s] for a string [s]: only an equal string compares equal. *)
Definition py_eq_str (v : pyval) (s : string) : bool :=
  match v with PStr t => String.eqb t s | _ => false end.

(** [item.get(k, '')] *)
Definition dict_get (item : dict) (k : string) : pyval :=
  match item !! k with Some v => v | None => PStr "" end.

(** ** Text normaliser and document builder *)

Definition preprocessar_texto (texto : pyval) : string :=
  match texto with
  | PStr s =>
      let texto := Str.lower s in
      let texto := Str.re_sub_plus Latin1.is_nonword " " texto in
      let texto := Str.strip (Str.re_sub_plus Latin1.is_space " " texto) in
      texto
  | _ => ""
  end.

Definition criar_documento (item : dict) (tipo : pyval) : string :=
  if py_eq_str tipo "trabalhador" then
    let texto_habilidades := preprocessar_texto (dict_get item "habilidades") in
    let texto_experiencia := preprocessar_texto (dict_get item "experiencia") in
    Str.strip (texto_habilidades +:+ " " +:+ texto_experiencia)
  else if py_eq_str tipo "vaga" then
    let texto_requisitos :=
      preprocessar_texto (dict_get item "requisitos_habilidades") in
    let texto_descricao := preprocessar_texto (dict_get item "descricao") in
    Str.strip (texto_requisitos +:+ " " +:+ texto_descricao)
  else "".

(** ** The normaliser as the specification words it *)

Module Spec.
Import Latin1.

(** The maximal runs of a string: consecutive characters that agree on
    membership in the class, tagged with that membership. *)
Fixpoint runs (cls : ascii -> bool) (s : string) : list (bool * string) :=
  match s with
  | EmptyString => []
  | String c t =>
      match runs cls t with
      | (b, r) :: rest =>
          if Bool.eqb b (cls c) then (b, String c r) :: rest
          else (cls c, String c EmptyString) :: (b, r) :: rest
      | [] => [(cls c, String c EmptyString)]
      end
  end.

(** Every maximal run of characters of the class becomes one space. *)
Definition replace_runs (cls : ascii -> bool) (s : string) : string :=
  fold_right
    (fun (br : bool * string) (acc : string) =>
       (if fst br then " " else snd br) +:+ acc)
    EmptyString (runs cls s).

(** Leading and trailing whitespace is removed. *)
Definition reverse (s : string) : string :=
  string_of_list_ascii (rev (list_ascii_of_string s)).

Definition trim (s : string) : string :=
  reverse (Str.skip is_space (reverse (Str.skip is_space s))).

Definition normalize (x : pyval) : string :=
  match x with
  | PStr s =>
      trim (replace_runs is_space (replace_runs is_nonword (Str.lower s)))
  | _ => ""
  end.

End Spec.

(** ** Floating-point scores *)

Inductive float64 : Type :=
| NaN
| Inf (negative : bool)
| Fin (q : Q).

Module F.

(** [np.isnan(x)] *)
Definition isnan (x : float64) : bool :=
  match x with NaN => true | _ => false end.

(** [x < y]; false as soon as one side is NaN. *)
Definition lt (x y : float64) : bool :=
  match x, y with
  | NaN, _ | _, NaN => false
  | Inf a, Inf b => a && negb b
  | Inf a, Fin _ => a
  | Fin _, Inf b => negb b
  | Fin p, Fin q => negb (Qle_bool q p)
  end.

(** [x <= y]; false as soon as one side is NaN. *)
Definition le (x y : float64) : bool :=
  match x, y with
  | NaN, _ | _, NaN => false
  | Inf a, Inf b => a || negb b
  | Inf a, Fin _ => a
  | Fin _, Inf b => negb b
  | Fin p, Fin q => Qle_bool p q
  end.

Definition zero : float64 := Fin 0.

(** The integer nearest to [n / d], ties going to the even one. *)
Definition round_half_even (n : Z) (d : positive) : Z :=
  let k := (n / Z.pos d)%Z in
  let r := (n mod Z.pos d)%Z in
  match (2 * r ?= Z.pos d)%Z with
  | Lt => k
  | Gt => (k + 1)%Z
  | Eq => if Z.even k then k else (k + 1)%Z
  end.

(** [round(float(x), 4)]: the value is rounded to four decimal places,
    half to even; NaN and the infinities round to themselves.  The result
    is kept as the decimal itself. *)
Definition round4 (x : float64) : float64 :=
  match x with
  | Fin q => Fin (round_half_even (Qnum q * 10000) (Qden q) # 10000)
  | _ => x
  end.

End F.

(** ** Built-ins of Python used by the ranker *)

(** [enumerate(l)], counting from [i]. *)
Fixpoint enumerate_from {A : Type} (i : nat) (l : list A) : list (nat * A) :=
  match l with
  | [] => []
  | x :: l' => (i, x) :: enumerate_from (S i) l'
  end.

Definition enumerate {A : Type} (l : list A) : list (nat * A) :=
  enumerate_from 0 l.

(** [sorted(l, key=lambda item: item[1], reverse=True)].  Python's sort is
    stable and asks only [<] of the keys; with [reverse=True] elements with
    equal keys keep their original order.  An element is put in front of
    the first element whose key is not greater than its own.  For keys
    without NaN this is the one stable descending order.  With NaN among
    the keys [<] is no order and the outcome depends on which comparisons
    the sort makes: the insertion below gives what CPython gives for up to
    three keys, and may differ from it on longer lists. *)
Fixpoint insere_desc (x : nat * float64) (l : list (nat * float64))
  : list (nat * float64) :=
  match l with
  | [] => [x]
  | y :: l' =>
      if F.lt (snd x) (snd y) then y :: insere_desc x l'
      else x :: y :: l'
  end.

Definition sorted_desc (l : list (nat * float64)) : list (nat * float64) :=
  fold_right insere_desc [] l.

(** [not l] for a list [l] *)
Definition vazia {A : Type} (l : list A) : bool :=
  match l with [] => true | _ => false end.

(** [l[:k]] for an integer [k]: a negative [k] counts from the end. *)
Definition slice_to {A : Type} (k : Z) (l : list A) : list A :=
  if (k <? 0)%Z then firstn (Z.to_nat (Z.of_nat (length l) + k)) l
  else firstn (Z.to_nat k) l.

(** ** Module state *)

(** What a scikit-learn call gives back: a value, or a [ValueError]. *)
Inductive resultado (A : Type) : Type :=
| Ok (a : A)
| ValueError (msg : string).
Arguments Ok {A} a.
Arguments ValueError {A} msg.

(** A NumPy array of one or two dimensions. *)
Inductive ndarray (num : Type) : Type :=
| Arr1 (v : list num)
| Arr2 (rows : list (list num)).
Arguments Arr1 {num} v.
Arguments Arr2 {num} rows.

(** The value of the global [matriz_similaridade_global]: [None], an
    [np.ndarray], or an object of another type. *)
Inductive cache (num : Type) : Type :=
| Nenhum
| Matriz (a : ndarray num)
| Outro.
Arguments Nenhum {num}.
Arguments Matriz {num} a.
Arguments Outro {num}.

(** [a.shape[0]] *)
Definition shape0 {num : Type} (a : ndarray num) : nat :=
  match a with Arr1 v => length v | Arr2 rows => length rows end.

(** [a[i]] for [i] below [a.shape[0]]: a scalar of a one-dimensional array,
    a row of a two-dimensional one. *)
Inductive elemento (num : Type) : Type :=
| Escalar (x : num)
| Vetor (v : list num).
Arguments Escalar {num} x.
Arguments Vetor {num} v.

Definition getitem {num : Type} (a : ndarray num) (i : nat)
  : option (elemento num) :=
  match a with
  | Arr1 v => Escalar <$> v !! i
  | Arr2 rows => Vetor <$> rows !! i
  end.

(** The globals of the module, and the standard output. *)
Record estado (V num : Type) : Type := Estado {
  trabalhadores : list dict;
  vagas : list dict;
  vectorizer : V;
  matriz_similaridade_global : cache num;
  tfidf_matrix_global : option (list (list num));
  docs_trabalhadores_global : list string;
  docs_vagas_global : list string;
  stdout : list string
}.
Arguments Estado {V num}.
Arguments trabalhadores {V num}.
Arguments vagas {V num}.
Arguments vectorizer {V num}.
Arguments matriz_similaridade_global {V num}.
Arguments tfidf_matrix_global {V num}.
Arguments docs_trabalhadores_global {V num}.
Arguments docs_vagas_global {V num}.
Arguments stdout {V num}.

Section Globals.
Context {V num : Type}.
Implicit Type st : estado V num.

Definition print (msg : string) st : estado V num :=
  Estado (trabalhadores st) (vagas st) (vectorizer st)
    (matriz_similaridade_global st) (tfidf_matrix_global st)
    (docs_trabalhadores_global st) (docs_vagas_global st)
    (msg :: stdout st).

Definition set_docs (dt dv : list string) st : estado V num :=
  Estado (trabalhadores st) (vagas st) (vectorizer st)
    (matriz_similaridade_global st) (tfidf_matrix_global st)
    dt dv (stdout st).

Definition set_vectorizer (v : V) st : estado V num :=
  Estado (trabalhadores st) (vagas st) v
    (matriz_similaridade_global st) (tfidf_matrix_global st)
    (docs_trabalhadores_global st) (docs_vagas_global st) (stdout st).

Definition set_tfidf (m : list (list num)) st : estado V num :=
  Estado (trabalhadores st) (vagas st) (vectorizer st)
    (matriz_similaridade_global st) (Some m)
    (docs_trabalhadores_global st) (docs_vagas_global st) (stdout st).

Definition set_matriz (c : cache num) st : estado V num :=
  Estado (trabalhadores st) (vagas st) (vectorizer st)
    c (tfidf_matrix_global st)
    (docs_trabalhadores_global st) (docs_vagas_global st) (stdout st).

End Globals.

(** ** Initialisation *)

Definition msg_inicializando : string := "Inicializando o matcher...".
Definition msg_docs_vazios : string :=
  Latin1.u "Erro: Listas de documentos de trabalhadores ou vagas estão vazias durante a inicialização.".
Definition msg_sucesso : string := "Matcher inicializado com sucesso.".
Definition msg_erro_ajuste (e : string) : string :=
  Latin1.u "Erro ao ajustar o vetorizador TF-IDF durante a inicialização: " +:+ e.

Section Inicializacao.
Context {V num : Type}.

(** [vectorizer.fit_transform(docs)]: the fitted vectorizer and one row
    per document, or a [ValueError]. *)
Variable fit_transform : V -> list string -> V * resultado (list (list num)).

(** [cosine_similarity(X, Y)]: a two-dimensional array, or a
    [ValueError]. *)
Variable cosine_similarity :
  list (list num) -> list (list num) -> resultado (list (list num)).

Definition inicializar_matcher (st : estado V num) : estado V num :=
  let st := print msg_inicializando st in
  let st :=
    set_docs
      (map (fun t => criar_documento t (PStr "trabalhador")) (trabalhadores st))
      (map (fun v => criar_documento v (PStr "vaga")) (vagas st)) st in
  if vazia (docs_trabalhadores_global st) || vazia (docs_vagas_global st)
  then print msg_docs_vazios st
  else
    let todos_docs :=
      (docs_trabalhadores_global st ++ docs_vagas_global st)%list in
    match fit_transform (vectorizer st) todos_docs with
    | (v, ValueError e) =>
        set_matriz Nenhum (print (msg_erro_ajuste e) (set_vectorizer v st))
    | (v, Ok m) =>
        let st := set_tfidf m (set_vectorizer v st) in
        let tfidf_trabalhadores :=
          firstn (length (docs_trabalhadores_global st)) m in
        let tfidf_vagas :=
          skipn (length (docs_trabalhadores_global st)) m in
        match cosine_similarity tfidf_trabalhadores tfidf_vagas with
        | Ok sim => print msg_sucesso (set_matriz (Matriz (Arr2 sim)) st)
        | ValueError e => set_matriz Nenhum (print (msg_erro_ajuste e) st)
        end
    end.

End Inicializacao.

(** ** Match ranking *)

(** One entry of the returned list. *)
Record match_vaga : Type := MatchVaga {
  id_vaga : pyval;
  titulo_vaga : pyval;
  empresa : pyval;
  similaridade : float64
}.

(** What the function returns: a list of matches or a dictionary with the
    key ["erro"]. *)
Inductive retorno : Type :=
| Lista (l : list match_vaga)
| DictErro (erro : string).

(** Exceptions that would leave the function. *)
Inductive excecao : Type :=
| KeyError (k : string)
| IndexError.

Definition msg_matriz_nao_inicializada : string :=
  Latin1.u "Erro: Matriz de similaridade não foi inicializada corretamente.".
Definition erro_falha_inicializar : string :=
  "Falha ao inicializar a matriz de similaridade.".
Definition erro_nao_encontrado (id_trabalhador : string) : string :=
  "Trabalhador com ID '" +:+ id_trabalhador +:+ Latin1.u "' não encontrado.".
Definition msg_indice_fora (indice linhas : nat) : string :=
  Latin1.u "Erro: Índice do trabalhador (" +:+ pretty indice
  +:+ ") fora dos limites da matriz de similaridade (" +:+ pretty linhas
  +:+ ").".
Definition erro_indice_fora : string :=
  Latin1.u "Índice do trabalhador fora dos limites da matriz.".
Definition msg_vetor_invalido (id_trabalhador : string) : string :=
  Latin1.u "Erro: Vetor de similaridade inválido para o trabalhador "
  +:+ id_trabalhador +:+ ".".
Definition erro_vetor_invalido : string :=
  Latin1.u "Vetor de similaridade inválido.".
Definition msg_vaga_fora (indice_vaga : nat) : string :=
  Latin1.u "Aviso: Índice de vaga " +:+ pretty indice_vaga
  +:+ " fora dos limites da lista de vagas.".

(** [next(i for i, t in enumerate(ts) if t['id'] == id_trabalhador)] inside
    [try ... except StopIteration]: the position of the first record with
    that id, [None] when the generator is exhausted, a [KeyError] when a
    record met on the way has no ['id']. *)
Fixpoint indice_trabalhador (id_trabalhador : string) (ts : list dict) (i : nat)
  : excecao + option nat :=
  match ts with
  | [] => inr None
  | t :: ts' =>
      match t !! "id" with
      | None => inl (KeyError "id")
      | Some v =>
          if py_eq_str v id_trabalhador then inr (Some i)
          else indice_trabalhador id_trabalhador ts' (S i)
      end
  end.

(** The dictionary built for one retained job. *)
Definition montar_match (vaga : dict) (sim : float64) : excecao + match_vaga :=
  match vaga !! "id" with
  | None => inl (KeyError "id")
  | Some i =>
      match vaga !! "titulo" with
      | None => inl (KeyError "titulo")
      | Some t =>
          match vaga !! "empresa" with
          | None => inl (KeyError "empresa")
          | Some e => inr (MatchVaga i t e (F.round4 sim))
          end
      end
  end.

Section Matching.
Context {V : Type}.
Variable fit_transform :
  V -> list string -> V * resultado (list (list float64)).
Variable cosine_similarity :
  list (list float64) -> list (list float64)
  -> resultado (list (list float64)).

(** The loop over the pairs kept by the slice. *)
Fixpoint percorrer (pares : list (nat * float64))
  (resultado_matches : list match_vaga) (st : estado V float64)
  : (excecao + list match_vaga) * estado V float64 :=
  match pares with
  | [] => (inr resultado_matches, st)
  | (indice_vaga, sim) :: resto =>
      if F.isnan sim || F.le sim F.zero then
        percorrer resto resultado_matches st
      else if (indice_vaga <? length (vagas st))%nat then
        match vagas st !! indice_vaga with
        | None => (inl IndexError, st)
        | Some vaga =>
            match montar_match vaga sim with
            | inl e => (inl e, st)
            | inr m => percorrer resto (resultado_matches ++ [m])%list st
            end
        end
      else percorrer resto resultado_matches (print (msg_vaga_fora indice_vaga) st)
  end.

Definition encontrar_matches_para_trabalhador
  (id_trabalhador : string) (top_n : Z) (st : estado V float64)
  : (excecao + retorno) * estado V float64 :=
  let st :=
    match matriz_similaridade_global st with
    | Matriz _ => st
    | _ =>
        inicializar_matcher fit_transform cosine_similarity
          (print msg_matriz_nao_inicializada st)
    end in
  match matriz_similaridade_global st with
  | Nenhum | Outro => (inr (DictErro erro_falha_inicializar), st)
  | Matriz matriz =>
      match indice_trabalhador id_trabalhador (trabalhadores st) 0 with
      | inl e => (inl e, st)
      | inr None =>
          (inr (DictErro (erro_nao_encontrado id_trabalhador)),
           print ("Erro: " +:+ erro_nao_encontrado id_trabalhador) st)
      | inr (Some indice) =>
          if (shape0 matriz <=? indice)%nat then
            (inr (DictErro erro_indice_fora),
             print (msg_indice_fora indice (shape0 matriz)) st)
          else
            match getitem matriz indice with
            | None => (inl IndexError, st)
            | Some (Escalar _) =>
                (inr (DictErro erro_vetor_invalido),
                 print (msg_vetor_invalido id_trabalhador) st)
            | Some (Vetor similaridades_vagas) =>
                let matches_ordenados :=
                  sorted_desc (enumerate similaridades_vagas) in
                match percorrer (slice_to top_n matches_ordenados) [] st with
                | (inl e, st) => (inl e, st)
                | (inr resultado_matches, st) =>
                    (inr (Lista resultado_matches), st)
                end
            end
      end
  end.

End Matching.

(** ** The sample data of the module *)

(** A string literal of the source as a Python value. *)
Definition str (s : string) : pyval := PStr (Latin1.u s).

Definition trabalhadores_iniciais : list dict :=
  [ {[ "id" := str "t1";
       "nome" := str "Ana Silva";
       "habilidades" := str "Python, Machine Learning, Análise de Dados, SQL, Pandas, Scikit-learn";
       "experiencia" := str "Cientista de Dados Júnior com 2 anos de experiência em projetos de classificação e regressão. Experiência com visualização de dados usando Matplotlib e Seaborn." ]};
    {[ "id" := str "t2";
       "nome" := str "Bruno Costa";
       "habilidades" := str "JavaScript, React, Node.js, HTML, CSS, MongoDB";
       "experiencia" := str "Desenvolvedor Web Full-Stack com 5 anos de experiência na criação de aplicações web responsivas e escaláveis. Experiência com APIs RESTful." ]};
    {[ "id" := str "t3";
       "nome" := str "Carla Dias";
       "habilidades" := str "Java, Spring Boot, Microserviços, Docker, Kubernetes, AWS";
       "experiencia" := str "Engenheira de Software Sênior com 8 anos de experiência em desenvolvimento backend e arquitetura de sistemas distribuídos. Foco em soluções cloud-native." ]};
    {[ "id" := str "t4";
       "nome" := str "Daniel Souza";
       "habilidades" := str "Python, Django, Flask, PostgreSQL, Testes Unitários";
       "experiencia" := str "Desenvolvedor Backend Pleno com 3 anos de experiência em desenvolvimento de APIs web com Python. Conhecimento em bancos de dados relacionais." ]} ].

Definition vagas_iniciais : list dict :=
  [ {[ "id" := str "v1";
       "titulo" := str "Cientista de Dados Pleno";
       "empresa" := str "InovaTech";
       "requisitos_habilidades" := str "Python, R, Machine Learning, Deep Learning, SQL, Spark";
       "descricao" := str "Procuramos um Cientista de Dados para desenvolver modelos preditivos e analisar grandes volumes de dados. Necessário experiência com bibliotecas como Scikit-learn, TensorFlow ou PyTorch." ]};
    {[ "id" := str "v2";
       "titulo" := str "Desenvolvedor Frontend Júnior";
       "empresa" := str "WebSoluções";
       "requisitos_habilidades" := str "HTML, CSS, JavaScript, React, Git";
       "descricao" := str "Vaga para Desenvolvedor Frontend para atuar na criação de interfaces de usuário interativas e modernas. Desejável conhecimento em algum framework JS como React ou Vue." ]};
    {[ "id" := str "v3";
       "titulo" := str "Engenheiro de DevOps Sênior";
       "empresa" := str "CloudExperts";
       "requisitos_habilidades" := str "AWS, Azure, Docker, Kubernetes, Terraform, CI/CD, Python";
       "descricao" := str "Buscamos Engenheiro de DevOps experiente para automatizar infraestrutura e processos de deploy em ambiente de nuvem. Forte conhecimento em ferramentas de orquestração e IaC." ]};
    {[ "id" := str "v4";
       "titulo" := str "Desenvolvedor Python Backend";
       "empresa" := str "CodeBuilders";
       "requisitos_habilidades" := str "Python, Django, Flask, REST API, SQL, Docker";
       "descricao" := str "Oportunidade para Desenvolvedor Python Backend para construir e manter APIs robustas e escaláveis. Experiência com frameworks web e bancos de dados é essencial." ]} ].

(** The globals as the module body sets them, before its last line runs. *)
Definition estado_inicial {V num : Type} (v : V) : estado V num :=
  Estado trabalhadores_iniciais vagas_iniciais v Nenhum None [] [] [].

(** ** Cosine similarity in exact arithmetic *)

Module Cosseno.
Local Open Scope R_scope.

Fixpoint dot (a b : list R) : R :=
  match a, b with
  | x :: a', y :: b' => x * y + dot a' b'
  | _, _ => 0
  end.

Definition norm (a : list R) : R := sqrt (dot a a).

(** Modelled from the spec: scikit-learn's [cosine_similarity] is not part
    of the repository.  The cosine of two vectors is
    [dot a b / (norm a * norm b)], and 0 when either vector has zero
    magnitude. *)
Definition cosseno (a b : list R) : R :=
  if Req_dec_T (norm a) 0 then 0
  else if Req_dec_T (norm b) 0 then 0
  else dot a b / (norm a * norm b).

End Cosseno.

(** ** Cosine similarity in binary64

    The array that [cosine_similarity] returns holds NumPy [float64]
    numbers.  The kernel's [float] is the same format, IEEE 754 binary64
    with rounding to nearest, ties to even, so that the operations below
    round as the ones of the program do. *)

Module B64.
Local Open Scope float_scope.

(** The sum of the products, accumulated from the left. *)
Fixpoint soma (acc : float) (a b : list float) : float :=
  match a, b with
  | x :: a', y :: b' => soma (acc + x * y) a' b'
  | _, _ => acc
  end.

Definition dot (a b : list float) : float := soma 0 a b.

Definition norm (a : list float) : float := PrimFloat.sqrt (dot a a).

(** Modelled from the spec: scikit-learn's [cosine_similarity] is not part
    of the repository.  The cosine of two vectors is
    [dot a b / (norm a * norm b)], and 0 when either vector has zero
    magnitude; every operation rounds to binary64. *)
Definition cosseno (a b : list float) : float :=
  if (norm a =? 0) || (norm b =? 0) then 0
  else dot a b / (norm a * norm b).

(** Modelled from the spec: the same cosine with the two vectors scaled to
    unit length first and multiplied afterwards, a vector of zero
    magnitude being left as it is. *)
Definition normalize (a : list float) : list float :=
  if norm a =? 0 then a else map (fun x => x / norm a) a.

Definition cosseno_normalizado (a b : list float) : float :=
  dot (normalize a) (normalize b).

(** Modelled from the spec: the matrix of the cosines of every row of [X]
    with every row of [Y]. *)
Definition cosine_similarity (X Y : list (list float))
  : resultado (list (list float)) :=
  Ok (map (fun x => map (cosseno x) Y) X).

(** The sign bit of a float is set; NaN counts as unsigned. *)
Definition sinal (f : spec_float) : bool :=
  match f with
  | S754_zero s | S754_finite s _ _ | S754_infinity s => s
  | S754_nan => false
  end.

(** The float is below zero: a negative number or minus infinity. *)
Definition negativo (f : spec_float) : bool :=
  match f with
  | S754_finite s _ _ | S754_infinity s => s
  | _ => false
  end.

(** The number a finite float stands for; 0 for NaN and the infinities. *)
Definition real (x : float) : R :=
  match Prim2SF x with
  | S754_finite s m e =>
      (IZR (if s then Z.neg m else Z.pos m) * powerRZ 2 e)%R
  | _ => 0%R
  end.

End B64.

(** ** Predicates used in the statements *)

(** The shape of a normalised text: word characters, and single spaces each
    followed by a word character. *)
Fixpoint canon (s : string) : bool :=
  match s with
  | EmptyString => true
  | String c t =>
      if Ascii.eqb c " " then
        match t with
        | EmptyString => true
        | String d _ => Latin1.is_word d
        end && canon t
      else Latin1.is_word c && canon t
  end.

(** [str.lower] leaves every character of the string alone. *)
Definition lowered (s : string) : bool :=
  Str.all (fun c => Ascii.eqb (Latin1.lower_char c) c) s.

(** Neither the first nor the last character is whitespace. *)
Definition stripped (s : string) : Prop :=
  (forall c, Str.first s = Some c -> Latin1.is_space c = false) /\
  (forall c, Str.last s = Some c -> Latin1.is_space c = false).

(** [p] is ranked before [q]: a greater score, or an equal score and an
    earlier job position. *)
Definition antes (p q : nat * float64) : Prop :=
  F.lt (snd q) (snd p) = true \/
  (F.le (snd p) (snd q) = true /\ F.le (snd q) (snd p) = true
   /\ (fst p < fst q)%nat).

(** The emitted similarities do not increase. *)
Definition nao_crescente (m1 m2 : match_vaga) : Prop :=
  F.le (similaridade m2) (similaridade m1) = true.

Definition sem_nan (l : list float64) : Prop :=
  Forall (fun x => F.isnan x = false) l.

Definition pares_sem_nan (l : list (nat * float64)) : Prop :=
  Forall (fun p => F.isnan (snd p) = false) l.

(** No entry of the cached matrix is NaN. *)
Definition matriz_sem_nan (c : cache float64) : Prop :=
  match c with
  | Matriz (Arr1 v) => sem_nan v
  | Matriz (Arr2 rows) => Forall sem_nan rows
  | _ => True
  end.

(** The score passes the test of the loop: not NaN and greater than 0. *)
Definition positivo (x : float64) : bool :=
  negb (F.isnan x || F.le x F.zero).

(** The pairs the loop keeps: a positive score and a job position inside
    the job list. *)
Definition retidos (vs : list dict) (pares : list (nat * float64))
  : list (nat * float64) :=
  List.filter (fun p => positivo (snd p) && (fst p <? length vs)%nat) pares.

(** [m] is the entry built from the pair [p]. *)
Definition emitido (vs : list dict) (p : nat * float64) (m : match_vaga) : Prop :=
  exists vaga, vs !! fst p = Some vaga /\ montar_match vaga (snd p) = inr m.

(** Two states agree on every global; only the standard output may differ. *)
Definition mesmos_globais {V num : Type} (st st' : estado V num) : Prop :=
  trabalhadores st' = trabalhadores st /\
  vagas st' = vagas st /\
  vectorizer st' = vectorizer st /\
  matriz_similaridade_global st' = matriz_similaridade_global st /\
  tfidf_matrix_global st' = tfidf_matrix_global st /\
  docs_trabalhadores_global st' = docs_trabalhadores_global st /\
  docs_vagas_global st' = docs_vagas_global st.

(** The state after the guard that opens
    [encontrar_matches_para_trabalhador]: untouched when the cache holds an
    array, re-initialised once otherwise. *)
Definition apos_guarda {V : Type}
  (fit_transform : V -> list string -> V * resultado (list (list float64)))
  (cosine_similarity :
     list (list float64) -> list (list float64)
     -> resultado (list (list float64)))
  (st : estado V float64) : estado V float64 :=
  match matriz_similaridade_global st with
  | Matriz _ => st
  | _ =>
      inicializar_matcher fit_transform cosine_similarity
        (print msg_matriz_nao_inicializada st)
  end.

(** [isinstance(c, np.ndarray)] *)
Definition is_ndarray {num : Type} (c : cache num) : bool :=
  match c with Matriz _ => true | _ => false end.

(** How many times [inicializar_matcher] has announced itself. *)
Definition inicializacoes (out : list string) : nat :=
  count_occ string_dec out msg_inicializando.

(** The record has every key of the list. *)
Definition tem_chaves (ks : list string) (d : dict) : bool :=
  forallb (fun k => match d !! k with Some _ => true | None => false end) ks.

(** Step 6 as the specification words it: the pairs with a NaN or
    non-positive score are skipped first, then up to [top_n] of the
    remaining pairs are taken in sorted order. *)
Definition selecao_spec (top_n : Z) (ordenados : list (nat * float64))
  : list (nat * float64) :=
  slice_to top_n (List.filter (fun p => positivo (snd p)) ordenados).

(** What the loop does: the sorted list is cut to [top_n] pairs first, then
    the pairs with a NaN or non-positive score are skipped. *)
Definition selecao_codigo (top_n : Z) (ordenados : list (nat * float64))
  : list (nat * float64) :=
  List.filter (fun p => positivo (snd p)) (slice_to top_n ordenados).

(** Every coordinate of the vector is at least 0. *)
Definition nao_negativo (a : list R) : Prop := Forall (fun x => (0 <= x)%R) a.

(** Concrete states used to evaluate the functions. *)
Module Exemplo.

Definition fit (_ : unit) (_ : list string)
  : unit * resultado (list (list float64)) :=
  (tt, ValueError "empty vocabulary").

Definition cos (_ _ : list (list float64)) : resultado (list (list float64)) :=
  ValueError "".

(** A vectorizer with one constant feature, and a similarity that is
    one half everywhere: enough to let the initialisation succeed. *)
Definition fit_ok (_ : unit) (docs : list string)
  : unit * resultado (list (list float64)) :=
  (tt, Ok (map (fun _ => [Fin 1]) docs)).

Definition cos_ok (X Y : list (list float64))
  : resultado (list (list float64)) :=
  Ok (map (fun _ => map (fun _ => Fin (1 # 2)) Y) X).

Definition uma_vaga (i t : string) : dict :=
  {[ "id" := PStr i; "titulo" := PStr t; "empresa" := PStr "E" ]}.

(** One worker, the jobs [v1], [v2], [v3], and the given similarity row. *)
Definition com_linha (linha : list float64) : estado unit float64 :=
  Estado [ {[ "id" := PStr "t1" ]} ]
    [ uma_vaga "v1" "A"; uma_vaga "v2" "B"; uma_vaga "v3" "C" ]
    tt (Matriz (Arr2 [linha])) None [] [] [].

(** Two workers, three jobs, and the given array in the cache. *)
Definition com_matriz (m : ndarray float64) : estado unit float64 :=
  Estado [ {[ "id" := PStr "t1" ]}; {[ "id" := PStr "t2" ]} ]
    [ uma_vaga "v1" "A"; uma_vaga "v2" "B"; uma_vaga "v3" "C" ]
    tt (Matriz m) None [] [] [].

(** The workers of the module, no job, and a matrix cached earlier. *)
Definition sem_vagas : estado unit float64 :=
  Estado trabalhadores_iniciais [] tt (Matriz (Arr2 [[Fin (1 # 2)]]))
    None [] [] [].

(** The sample data with a cache that was never filled. *)
Definition sem_matriz : estado unit float64 := estado_inicial tt.

(** The workers of the module, no job, and a cache that was never filled. *)
Definition sem_vagas_nem_matriz : estado unit float64 :=
  Estado trabalhadores_iniciais [] tt Nenhum None [] [] [].

(** The weight of each term of a document of three terms, every term
    occurring once in every document: the row [[1, 1, 1]] scaled to unit
    length, [1 / sqrt 3] in binary64. *)
Definition peso3 : float := (1 / PrimFloat.sqrt 3)%float.

(** A vectorizer for documents that all consist of the same three terms. *)
Definition fit_tres (v : unit) (docs : list string)
  : unit * resultado (list (list float)) :=
  (v, Ok (map (fun _ => [peso3; peso3; peso3]) docs)).

(** One worker and one job whose documents are the same three terms. *)
Definition documentos_iguais : estado unit float :=
  Estado [ {[ "id" := PStr "t1"; "habilidades" := PStr "Python, Java, SQL" ]} ]
    [ {[ "id" := PStr "v1"; "titulo" := PStr "A"; "empresa" := PStr "E";
         "requisitos_habilidades" := PStr "python java sql" ]} ]
    tt Nenhum None [] [] [].

End Exemplo.

(** Consecutive runs differ in their tag, so that no run can be extended. *)
Fixpoint alternam (l : list (bool * string)) : Prop :=
  match l with
  | (b, _) :: ((b', _) :: _) as t => b <> b' /\ alternam t
  | _ => True
  end.

(** Every character of the run has the membership the tag says, and the run
    is not empty. *)
Definition run_ok (cls : ascii -> bool) (br : bool * string) : Prop :=
  snd br <> EmptyString
  /\ Str.all (fun c => Bool.eqb (cls c) (fst br)) (snd br) = true.

(** The characters of [s] that satisfy [p], in order. *)
Fixpoint keep (p : ascii -> bool) (s : string) : string :=
  match s with
  | EmptyString => EmptyString
  | String c t => if p c then String c (keep p t) else keep p t
  end.

(** Two texts joined by one space, an empty text leaving the other alone. *)
Definition juntar (a b : string) : string :=
  match a, b with
  | EmptyString, _ => b
  | _, EmptyString => a
  | _, _ => a +:+ " " +:+ b
  end.

(** ** The HTTP layer ([api.py])

    The handler of [GET /match/trabalhador/{id_trabalhador}].  The list
    [trabalhadores] it imports is the list of the matcher.  FastAPI
    validates [top_n >= 1] before the handler runs; the handler itself does
    not.  A call of the logger is kept as an entry of [log], newest first. *)

Inductive registro : Type :=
| InfoRequisicao (id_trabalhador : string) (top_n : Z)
| WarningNaoEncontrado (id_trabalhador : string)
| InfoMatches (id_trabalhador : string) (quantos : option nat)
| ErrorInterno (id_trabalhador : string) (erro : string)
| ExceptionInesperada (id_trabalhador : string) (e : excecao).

(** How the handler ends: it returns the list, raises an [HTTPException],
    or lets another exception through. *)
Inductive resposta : Type :=
| Retorno (matches : list match_vaga)
| HTTPException (status_code : Z) (detail : string)
| Propaga (e : excecao).

Definition tab : string := String (ascii_of_nat 9) EmptyString.

Definition detail_nao_encontrado (id_trabalhador : string) : string :=
  "Trabalhador com ID " +:+ tab +:+ "'" +:+ id_trabalhador +:+ tab
  +:+ Latin1.u "' não encontrado.".

Definition detail_inesperado : string :=
  "Ocorreu um erro interno inesperado no servidor.".

(** [any(t["id"] == id_trabalhador for t in trabalhadores)]: the records are
    visited in order until one has the id; a record without ['id'] met on
    the way raises [KeyError]. *)
Fixpoint any_id (id_trabalhador : string) (ts : list dict) : excecao + bool :=
  match ts with
  | [] => inr false
  | t :: ts' =>
      match t !! "id" with
      | None => inl (KeyError "id")
      | Some v =>
          if py_eq_str v id_trabalhador then inr true
          else any_id id_trabalhador ts'
      end
  end.

Section Api.
Context {V : Type}.
Variable fit_transform :
  V -> list string -> V * resultado (list (list float64)).
Variable cosine_similarity :
  list (list float64) -> list (list float64)
  -> resultado (list (list float64)).

Definition get_matches_para_trabalhador
  (id_trabalhador : string) (top_n : Z)
  (st : estado V float64) (log : list registro)
  : resposta * estado V float64 * list registro :=
  let log := InfoRequisicao id_trabalhador top_n :: log in
  match any_id id_trabalhador (trabalhadores st) with
  | inl e => (Propaga e, st, log)
  | inr false =>
      (HTTPException 404 (detail_nao_encontrado id_trabalhador), st,
       WarningNaoEncontrado id_trabalhador :: log)
  | inr true =>
      match encontrar_matches_para_trabalhador fit_transform
              cosine_similarity id_trabalhador top_n st with
      | (inr (Lista matches), st) =>
          (Retorno matches, st,
           InfoMatches id_trabalhador (Some (length matches)) :: log)
      | (inr (DictErro erro), st) =>
          (HTTPException 500 erro, st,
           ErrorInterno id_trabalhador erro
           :: InfoMatches id_trabalhador None :: log)
      | (inl e, st) =>
          (HTTPException 500 detail_inesperado, st,
           ExceptionInesperada id_trabalhador e :: log)
      end
  end.

End Api.

(** The words of a text: its maximal runs of word characters, in order
    (what [re.findall(r'\w+', s)] returns). *)
Fixpoint words (s : string) : list string :=
  match s with
  | EmptyString => []
  | String c t =>
      if Latin1.is_word c then
        match t with
        | EmptyString => [String c EmptyString]
        | String d _ =>
            if Latin1.is_word d then
              match words t with
              | w :: ws => String c w :: ws
              | [] => [String c EmptyString]
              end
            else String c EmptyString :: words t
        end
      else words t
  end.

(** [' '.join(ws)] *)
Fixpoint join_sp (ws : list string) : string :=
  match ws with
  | [] => EmptyString
  | [w] => w
  | w :: ws' => w +:+ " " +:+ join_sp ws'
  end.

(** The blank that [re.sub] leaves in front of the first word when the text
    starts with a non-word character. *)
Definition lead (s : string) : string :=
  match words s with
  | [] => EmptyString
  | _ :: _ =>
      match s with
      | String c _ => if Latin1.is_word c then EmptyString else " "
      | EmptyString => EmptyString
      end
  end.

(** The text of a field: the string itself, and the empty string for a
    value that is not a string. *)
Definition texto (v : pyval) : string :=
  match v with PStr s => s | _ => EmptyString end.

(** * Properties *)

(** ** Characters *)

Ltac by_cases_on_char c :=
  destruct c as [[] [] [] [] [] [] [] []]; vm_compute; try reflexivity;
  try discriminate; intros; try discriminate; auto.

Lemma lower_char_idem c :
  Latin1.lower_char (Latin1.lower_char c) = Latin1.lower_char c.
Proof. by_cases_on_char c. Qed.

Lemma word_not_space c : Latin1.is_word c = true -> Latin1.is_space c = false.
Proof. by_cases_on_char c. Qed.

Lemma space_not_word c : Latin1.is_space c = true -> Latin1.is_word c = false.
Proof. by_cases_on_char c. Qed.

Lemma space_char_is_space : Latin1.is_space " " = true.
Proof. reflexivity. Qed.

Lemma space_char_not_word : Latin1.is_word " " = false.
Proof. reflexivity. Qed.

(** ** [re.sub] against maximal runs *)

Lemma re_sub_plus_in cls repl c d t :
  cls c = true -> cls d = true ->
  Str.re_sub_plus cls repl (String c (String d t))
  = Str.re_sub_plus cls repl (String d t).
Proof. intros Hc Hd. simpl. rewrite Hc, Hd. reflexivity. Qed.

Lemma re_sub_plus_end cls repl c d t :
  cls c = true -> cls d = false ->
  Str.re_sub_plus cls repl (String c (String d t))
  = repl +:+ Str.re_sub_plus cls repl (String d t).
Proof. intros Hc Hd. simpl. rewrite Hc, Hd. reflexivity. Qed.

Lemma re_sub_plus_out cls repl c t :
  cls c = false ->
  Str.re_sub_plus cls repl (String c t)
  = String c (Str.re_sub_plus cls repl t).
Proof. intros Hc. simpl. rewrite Hc. reflexivity. Qed.

Lemma runs_head cls c t :
  exists r rest, Spec.runs cls (String c t) = (cls c, String c r) :: rest.
Proof.
  simpl. destruct (Spec.runs cls t) as [|[b r] rest]; [eauto|].
  destruct (Bool.eqb b (cls c)) eqn:E; [|eauto].
  apply Bool.eqb_prop in E. subst b. eauto.
Qed.

(** [runs] is the decomposition into maximal runs: the runs concatenate to
    the string, each is a non-empty block of one membership, and
    neighbouring runs differ in membership. *)
Lemma runs_decompose cls s :
  fold_right (fun (br : bool * string) acc => snd br +:+ acc) EmptyString
    (Spec.runs cls s) = s
  /\ Forall (run_ok cls) (Spec.runs cls s)
  /\ alternam (Spec.runs cls s).
Proof.
  induction s as [|c t (Hc & Hr & Ha)]; simpl; [repeat split; constructor|].
  destruct (Spec.runs cls t) as [|[b r] rest] eqn:E.
  - simpl in Hc. subst t. split; [reflexivity|]. split; [|exact I].
    constructor; [|constructor]. split; simpl; [discriminate|].
    rewrite Bool.eqb_reflx. reflexivity.
  - simpl in Hc. rewrite <- Hc.
    apply Forall_cons_1 in Hr as [[_ Hall] Hrest]. simpl in Hall.
    destruct (Bool.eqb b (cls c)) eqn:Eb.
    + apply Bool.eqb_prop in Eb.
      split; [reflexivity|]. split.
      * constructor; [|exact Hrest]. split; simpl; [discriminate|].
        rewrite <- Eb, Bool.eqb_reflx. exact Hall.
      * destruct rest as [|[b' r'] rest']; [exact I | exact Ha].
    + split; [reflexivity|]. split.
      * constructor; [|constructor; [|exact Hrest]].
        -- split; simpl; [discriminate|].
           rewrite Bool.eqb_reflx. reflexivity.
        -- split; simpl; [|exact Hall].
           intros ->. simpl in Hc. simpl in E.
           destruct t; simpl in E; [discriminate|].
           destruct (Spec.runs cls t) as [|[b0 r0] rest0];
             [discriminate|destruct (Bool.eqb b0 (cls a)); discriminate].
      * split; [|exact Ha].
        intros H. rewrite H, Bool.eqb_reflx in Eb. discriminate Eb.
Qed.

Lemma replace_runs_is_re_sub cls s :
  Spec.replace_runs cls s = Str.re_sub_plus cls " " s.
Proof.
  unfold Spec.replace_runs.
  induction s as [|c t IH]; [reflexivity|].
  destruct (cls c) eqn:Hc.
  - destruct t as [|d t'].
    + simpl. rewrite Hc. reflexivity.
    + destruct (runs_head cls d t') as (r & rest & Hr).
      destruct (cls d) eqn:Hd.
      * rewrite re_sub_plus_in by assumption. rewrite <- IH.
        change (Spec.runs cls (String c (String d t')))
          with (match Spec.runs cls (String d t') with
                | (b, r) :: rest =>
                    if Bool.eqb b (cls c) then (b, String c r) :: rest
                    else (cls c, String c EmptyString) :: (b, r) :: rest
                | [] => [(cls c, String c EmptyString)]
                end).
        rewrite Hr, Hc. reflexivity.
      * rewrite re_sub_plus_end by assumption. rewrite <- IH.
        change (Spec.runs cls (String c (String d t')))
          with (match Spec.runs cls (String d t') with
                | (b, r) :: rest =>
                    if Bool.eqb b (cls c) then (b, String c r) :: rest
                    else (cls c, String c EmptyString) :: (b, r) :: rest
                | [] => [(cls c, String c EmptyString)]
                end).
        rewrite Hr, Hc. reflexivity.
  - rewrite re_sub_plus_out by assumption. rewrite <- IH.
    change (Spec.runs cls (String c t))
      with (match Spec.runs cls t with
            | (b, r) :: rest =>
                if Bool.eqb b (cls c) then (b, String c r) :: rest
                else (cls c, String c EmptyString) :: (b, r) :: rest
            | [] => [(cls c, String c EmptyString)]
            end).
    destruct (Spec.runs cls t) as [|[b r] rest]; rewrite ?Hc; [reflexivity|].
    destruct b; reflexivity.
Qed.

(** ** [strip] *)

Lemma rstrip_empty_iff s :
  Str.rstrip s = EmptyString <-> Str.all Latin1.is_space s = true.
Proof.
  induction s as [|c t IH]; simpl; [tauto|].
  destruct (Str.rstrip t) eqn:E.
  - destruct (Latin1.is_space c); simpl.
    + split; [intros _; apply IH; reflexivity | reflexivity].
    + split; discriminate.
  - split; [discriminate|].
    intros H. apply andb_prop in H as [_ H].
    apply IH in H. discriminate.
Qed.

Lemma rstrip_cons c t :
  Str.rstrip (String c t)
  = if Str.all Latin1.is_space t
    then (if Latin1.is_space c then EmptyString else String c EmptyString)
    else String c (Str.rstrip t).
Proof.
  simpl. destruct (Str.all Latin1.is_space t) eqn:E.
  - apply rstrip_empty_iff in E. rewrite E. reflexivity.
  - destruct (Str.rstrip t) eqn:R; [|reflexivity].
    assert (Str.all Latin1.is_space t = true) by (apply rstrip_empty_iff; exact R).
    congruence.
Qed.

Lemma rstrip_last s c :
  Str.last (Str.rstrip s) = Some c -> Latin1.is_space c = false.
Proof.
  induction s as [|a t IH]; [discriminate|].
  rewrite rstrip_cons.
  destruct (Str.all Latin1.is_space t) eqn:E.
  - destruct (Latin1.is_space a) eqn:Ha; simpl; [discriminate|].
    intros [= <-]. exact Ha.
  - destruct (Str.rstrip t) eqn:R.
    + apply rstrip_empty_iff in R. congruence.
    + intros H. apply IH. exact H.
Qed.

Lemma rstrip_first s :
  Str.rstrip s <> EmptyString -> Str.first (Str.rstrip s) = Str.first s.
Proof.
  destruct s as [|a t]; [reflexivity|].
  rewrite rstrip_cons.
  destruct (Str.all Latin1.is_space t); [|reflexivity].
  destruct (Latin1.is_space a); [congruence | reflexivity].
Qed.

Lemma skip_first cls s c :
  Str.first (Str.skip cls s) = Some c -> cls c = false.
Proof.
  induction s as [|a t IH]; [discriminate|].
  simpl. destruct (cls a) eqn:Ha; [exact IH|].
  simpl. intros [= <-]. exact Ha.
Qed.

Lemma skip_id cls s :
  (forall c, Str.first s = Some c -> cls c = false) -> Str.skip cls s = s.
Proof.
  destruct s as [|a t]; [reflexivity|].
  intros H. simpl. rewrite (H a); reflexivity.
Qed.

Lemma rstrip_id s :
  (forall c, Str.last s = Some c -> Latin1.is_space c = false) ->
  Str.rstrip s = s.
Proof.
  induction s as [|a t IH]; [reflexivity|].
  intros H. rewrite rstrip_cons.
  destruct t as [|b t'].
  - simpl. rewrite (H a); reflexivity.
  - assert (Ht : Str.rstrip (String b t') = String b t')
      by (apply IH; intros c Hc; apply H; exact Hc).
    destruct (Str.all Latin1.is_space (String b t')) eqn:E.
    + apply rstrip_empty_iff in E. congruence.
    + rewrite Ht. reflexivity.
Qed.

Lemma strip_stripped s : stripped (Str.strip s).
Proof.
  unfold stripped, Str.strip, Str.lstrip. split.
  - intros c Hc.
    destruct (Str.rstrip (Str.skip Latin1.is_space s)) eqn:R; [discriminate|].
    rewrite <- R in Hc. rewrite rstrip_first in Hc by congruence.
    eapply skip_first; exact Hc.
  - intros c. apply rstrip_last.
Qed.

Lemma strip_id s : stripped s -> Str.strip s = s.
Proof.
  intros [Hf Hl]. unfold Str.strip, Str.lstrip.
  rewrite skip_id by exact Hf. apply rstrip_id. exact Hl.
Qed.

Lemma strip_idem s : Str.strip (Str.strip s) = Str.strip s.
Proof. apply strip_id, strip_stripped. Qed.

Lemma strip_space_cons s : Str.strip (String " " s) = Str.strip s.
Proof. reflexivity. Qed.

(** ** [trim] of the specification is [strip] *)

Lemma string_of_list_app l1 l2 :
  string_of_list_ascii (l1 ++ l2)%list
  = string_of_list_ascii l1 +:+ string_of_list_ascii l2.
Proof. induction l1 as [|a l1 IH]; simpl; [reflexivity | rewrite IH; reflexivity]. Qed.

Lemma list_of_string_app s1 s2 :
  list_ascii_of_string (s1 +:+ s2)
  = (list_ascii_of_string s1 ++ list_ascii_of_string s2)%list.
Proof. induction s1 as [|a s1 IH]; simpl; [reflexivity | rewrite IH; reflexivity]. Qed.

Lemma reverse_cons c t :
  Spec.reverse (String c t) = Spec.reverse t +:+ String c EmptyString.
Proof. unfold Spec.reverse. simpl. rewrite string_of_list_app. reflexivity. Qed.

Lemma reverse_snoc s c :
  Spec.reverse (s +:+ String c EmptyString) = String c (Spec.reverse s).
Proof.
  unfold Spec.reverse. rewrite list_of_string_app. simpl.
  rewrite rev_app_distr. reflexivity.
Qed.

Lemma all_snoc p s c :
  Str.all p (s +:+ String c EmptyString) = Str.all p s && p c.
Proof.
  induction s as [|a s IH]; simpl.
  - apply andb_true_r.
  - rewrite IH. apply andb_assoc.
Qed.

Lemma all_reverse p s : Str.all p (Spec.reverse s) = Str.all p s.
Proof.
  induction s as [|a s IH]; [reflexivity|].
  rewrite reverse_cons, all_snoc, IH. simpl. apply andb_comm.
Qed.

Lemma skip_snoc p s c :
  Str.skip p (s +:+ String c EmptyString)
  = if Str.all p s then (if p c then EmptyString else String c EmptyString)
    else Str.skip p s +:+ String c EmptyString.
Proof.
  induction s as [|a s IH]; simpl; [reflexivity|].
  destruct (p a); simpl; [exact IH | reflexivity].
Qed.

Lemma rstrip_reverse s :
  Str.rstrip s = Spec.reverse (Str.skip Latin1.is_space (Spec.reverse s)).
Proof.
  induction s as [|c t IH]; [reflexivity|].
  rewrite rstrip_cons, reverse_cons, skip_snoc, all_reverse.
  destruct (Str.all Latin1.is_space t).
  - destruct (Latin1.is_space c); reflexivity.
  - rewrite reverse_snoc, <- IH. reflexivity.
Qed.

Lemma trim_is_strip s : Spec.trim s = Str.strip s.
Proof. unfold Spec.trim, Str.strip, Str.lstrip. symmetry. apply rstrip_reverse. Qed.

(** ** The shape of a normalised text *)

Lemma all_re_sub p cls s :
  p " "%char = true -> Str.all p s = true ->
  Str.all p (Str.re_sub_plus cls " " s) = true.
Proof.
  intros Hsp. induction s as [|c t IH]; [reflexivity|].
  intros H. simpl in H. apply andb_prop in H as [Hc Ht].
  specialize (IH Ht).
  destruct (cls c) eqn:Ec.
  - destruct t as [|d t'].
    + simpl. rewrite Ec. simpl. rewrite Hsp. reflexivity.
    + destruct (cls d) eqn:Ed.
      * rewrite re_sub_plus_in by assumption. exact IH.
      * rewrite re_sub_plus_end by assumption. simpl.
        rewrite Hsp. exact IH.
  - rewrite re_sub_plus_out by assumption. simpl. rewrite Hc. exact IH.
Qed.

Lemma all_skip p cls s :
  Str.all p s = true -> Str.all p (Str.skip cls s) = true.
Proof.
  induction s as [|c t IH]; [reflexivity|].
  intros H. simpl. destruct (cls c); [|exact H].
  simpl in H. apply andb_prop in H as [_ H]. auto.
Qed.

Lemma all_rstrip p s :
  Str.all p s = true -> Str.all p (Str.rstrip s) = true.
Proof.
  induction s as [|c t IH]; [reflexivity|].
  intros H. simpl in H. apply andb_prop in H as [Hc Ht].
  rewrite rstrip_cons.
  destruct (Str.all Latin1.is_space t).
  - destruct (Latin1.is_space c); simpl; [reflexivity|].
    rewrite Hc. reflexivity.
  - simpl. rewrite Hc. auto.
Qed.

Lemma lowered_lower s : lowered (Str.lower s) = true.
Proof.
  unfold lowered. induction s as [|c t IH]; [reflexivity|].
  simpl. rewrite lower_char_idem, Ascii.eqb_refl. exact IH.
Qed.

Lemma lower_id s : lowered s = true -> Str.lower s = s.
Proof.
  unfold lowered. induction s as [|c t IH]; [reflexivity|].
  simpl. intros H. apply andb_prop in H as [Hc Ht].
  apply Ascii.eqb_eq in Hc. rewrite Hc, IH by exact Ht. reflexivity.
Qed.

Lemma word_not_blank c : Latin1.is_word c = true -> Ascii.eqb c " " = false.
Proof.
  intros H. destruct (Ascii.eqb c " ") eqn:E; [|reflexivity].
  apply Ascii.eqb_eq in E. subst c. discriminate H.
Qed.

Lemma canon_tail c t : canon (String c t) = true -> canon t = true.
Proof.
  simpl. destruct (Ascii.eqb c " "); intros H;
    apply andb_prop in H as [_ H]; exact H.
Qed.

Lemma canon_re_sub_nonword s :
  canon (Str.re_sub_plus Latin1.is_nonword " " s) = true.
Proof.
  induction s as [|c t IH]; [reflexivity|].
  destruct (Latin1.is_nonword c) eqn:Ec.
  - destruct t as [|d t'].
    + simpl. rewrite Ec. reflexivity.
    + destruct (Latin1.is_nonword d) eqn:Ed.
      * rewrite re_sub_plus_in by assumption. exact IH.
      * rewrite re_sub_plus_end by assumption.
        rewrite re_sub_plus_out in * by assumption.
        change (" " +:+ String d (Str.re_sub_plus Latin1.is_nonword " " t'))
          with (String " " (String d (Str.re_sub_plus Latin1.is_nonword " " t'))).
        remember (String d (Str.re_sub_plus Latin1.is_nonword " " t')) as r.
        simpl. rewrite IH. subst r.
        unfold Latin1.is_nonword in Ed. apply negb_false_iff in Ed.
        rewrite Ed. reflexivity.
  - rewrite re_sub_plus_out by assumption.
    unfold Latin1.is_nonword in Ec. apply negb_false_iff in Ec.
    simpl. rewrite (word_not_blank c Ec), Ec. exact IH.
Qed.

Lemma canon_fix cls s :
  cls " "%char = true ->
  (forall c, Latin1.is_word c = true -> cls c = false) ->
  canon s = true -> Str.re_sub_plus cls " " s = s.
Proof.
  intros Hsp Hw. induction s as [|c t IH]; [reflexivity|].
  intros H. pose proof (canon_tail _ _ H) as Ht. specialize (IH Ht).
  simpl in H. destruct (Ascii.eqb c " ") eqn:E.
  - apply Ascii.eqb_eq in E. subst c.
    destruct t as [|d t'].
    + simpl. rewrite Hsp. reflexivity.
    + apply andb_prop in H as [Hd _].
      rewrite re_sub_plus_end by auto. rewrite IH. reflexivity.
  - apply andb_prop in H as [Hc _].
    rewrite re_sub_plus_out by auto. rewrite IH. reflexivity.
Qed.

Lemma canon_skip cls s : canon s = true -> canon (Str.skip cls s) = true.
Proof.
  induction s as [|c t IH]; [reflexivity|].
  intros H. simpl Str.skip. destruct (cls c); [|exact H].
  apply IH. eapply canon_tail; exact H.
Qed.

Lemma canon_rstrip s : canon s = true -> canon (Str.rstrip s) = true.
Proof.
  induction s as [|c t IH]; [reflexivity|].
  intros H. pose proof (canon_tail _ _ H) as Ht. specialize (IH Ht).
  rewrite rstrip_cons.
  destruct (Str.all Latin1.is_space t) eqn:Ea.
  - destruct (Latin1.is_space c) eqn:Ec; [reflexivity|].
    simpl in *. destruct (Ascii.eqb c " ") eqn:E.
    + apply Ascii.eqb_eq in E. subst c. discriminate Ec.
    + apply andb_prop in H as [Hc _]. rewrite Hc. reflexivity.
  - assert (Hne : Str.rstrip t <> EmptyString).
    { intros R. apply rstrip_empty_iff in R. congruence. }
    pose proof (rstrip_first t Hne) as Hf.
    simpl in H. simpl. destruct (Ascii.eqb c " ").
    + destruct t as [|d t']; [discriminate Ea|].
      apply andb_prop in H as [Hd _].
      destruct (Str.rstrip (String d t')) as [|e r]; [congruence|].
      simpl in Hf. injection Hf as ->. rewrite Hd. exact IH.
    + apply andb_prop in H as [Hc _]. rewrite Hc. exact IH.
Qed.

Lemma preprocessar_texto_shape s :
  let r := preprocessar_texto (PStr s) in
  lowered r = true /\ canon r = true /\ stripped r.
Proof.
  simpl. unfold Str.strip, Str.lstrip.
  rewrite (canon_fix Latin1.is_space)
    by (first [reflexivity | exact word_not_space | apply canon_re_sub_nonword]).
  repeat split.
  - apply all_rstrip, all_skip, all_re_sub; [reflexivity|].
    apply lowered_lower.
  - apply canon_rstrip, canon_skip, canon_re_sub_nonword.
  - apply (strip_stripped (Str.re_sub_plus Latin1.is_nonword " " (Str.lower s))).
  - apply (strip_stripped (Str.re_sub_plus Latin1.is_nonword " " (Str.lower s))).
Qed.

Lemma nonword_of_word c : Latin1.is_word c = true -> Latin1.is_nonword c = false.
Proof. unfold Latin1.is_nonword. intros ->. reflexivity. Qed.

Lemma preprocessar_texto_fixed r :
  lowered r = true -> canon r = true -> stripped r ->
  preprocessar_texto (PStr r) = r.
Proof.
  intros Hl Hc Hs. simpl.
  rewrite (lower_id r Hl).
  rewrite (canon_fix Latin1.is_nonword) by (first [reflexivity | exact nonword_of_word | exact Hc]).
  rewrite (canon_fix Latin1.is_space) by (first [reflexivity | exact word_not_space | exact Hc]).
  apply strip_id. exact Hs.
Qed.

(** ** Claims on the normaliser *)

(** C5. The normaliser returns the empty string on every value that is not
    a string, and on a string it is the composition the specification
    describes: lowercase, every maximal run of non-word characters replaced
    by one space, every run of whitespace replaced by one space, leading
    and trailing whitespace removed.  The two examples of the specification
    evaluate as stated. *)
Theorem preprocessar_texto_refines_spec :
  (forall x : pyval,
     preprocessar_texto x = if is_str x then Spec.normalize x else "") /\
  preprocessar_texto (PStr "Python, ML!!  2023") = "python ml 2023" /\
  preprocessar_texto PNone = "".
Proof.
  split; [|split; reflexivity].
  intros [| | |s]; try reflexivity.
  unfold Spec.normalize, preprocessar_texto, is_str.
  rewrite trim_is_strip, !replace_runs_is_re_sub. reflexivity.
Qed.

(** C6. The normaliser is idempotent: normalising its own result gives the
    result back, for every input value. *)
Theorem preprocessar_texto_idempotent (x : pyval) :
  preprocessar_texto (PStr (preprocessar_texto x)) = preprocessar_texto x.
Proof.
  destruct x as [| | |s]; try reflexivity.
  destruct (preprocessar_texto_shape s) as (Hl & Hc & Hs).
  apply preprocessar_texto_fixed; assumption.
Qed.

(** ** Claims on the document builder *)

Lemma preprocessar_texto_stripped (v : pyval) : stripped (preprocessar_texto v).
Proof.
  destruct v as [| | |s]; try (split; discriminate).
  apply (preprocessar_texto_shape s).
Qed.

(** C7. For a worker record whose skills normalise to the empty string and
    whose experience normalises to a non-empty string, the document is
    exactly the normalised experience, and it neither starts nor ends with
    whitespace; for a kind that is neither ['trabalhador'] nor ['vaga'] the
    document is the empty string. *)
Theorem criar_documento_experiencia_e_tipo (item : dict) :
  (preprocessar_texto (dict_get item "habilidades") = "" ->
   preprocessar_texto (dict_get item "experiencia") <> "" ->
   criar_documento item (PStr "trabalhador")
   = preprocessar_texto (dict_get item "experiencia")
   /\ stripped (criar_documento item (PStr "trabalhador"))) /\
  (forall tipo : pyval,
     py_eq_str tipo "trabalhador" = false ->
     py_eq_str tipo "vaga" = false ->
     criar_documento item tipo = "").
Proof.
  split.
  - intros Hh _.
    assert (E : criar_documento item (PStr "trabalhador")
                = preprocessar_texto (dict_get item "experiencia")).
    { unfold criar_documento. simpl py_eq_str. cbv iota.
      rewrite Hh. change ("" +:+ " " +:+ ?e) with (String " " e).
      rewrite strip_space_cons.
      apply strip_id, preprocessar_texto_stripped. }
    split; [exact E|]. rewrite E. apply preprocessar_texto_stripped.
  - intros tipo H1 H2. unfold criar_documento. rewrite H1, H2. reflexivity.
Qed.

Lemma criar_documento_experiencia_e_tipo_witness :
  criar_documento {[ "habilidades" := PStr " ,; "; "experiencia" := PStr "Dev. Web  " ]}
    (PStr "trabalhador") = "dev web"
  /\ criar_documento {[ "habilidades" := PStr " ,; "; "experiencia" := PStr "Dev. Web  " ]}
       (PInt 7) = "".
Proof.
  pose proof (criar_documento_experiencia_e_tipo
                {[ "habilidades" := PStr " ,; "; "experiencia" := PStr "Dev. Web  " ]})
    as [H1 H2].
  split.
  - destruct H1 as [E _]; [reflexivity | discriminate |].
    rewrite E. reflexivity.
  - apply H2; reflexivity.
Defined.

(** ** The document builder on the sample data *)

Example documento_t1 :
  (fun ts => match ts with
             | t :: _ => criar_documento t (PStr "trabalhador")
             | [] => ""
             end) trabalhadores_iniciais
  = Latin1.u "python machine learning análise de dados sql pandas scikit learn cientista de dados júnior com 2 anos de experiência em projetos de classificação e regressão experiência com visualização de dados usando matplotlib e seaborn".
Proof. vm_compute. reflexivity. Qed.

Example documento_v3 :
  (fun vs => match vs with
             | _ :: _ :: v :: _ => criar_documento v (PStr "vaga")
             | _ => ""
             end) vagas_iniciais
  = Latin1.u "aws azure docker kubernetes terraform ci cd python buscamos engenheiro de devops experiente para automatizar infraestrutura e processos de deploy em ambiente de nuvem forte conhecimento em ferramentas de orquestração e iac".
Proof. vm_compute. reflexivity. Qed.

Example preprocessar_latin1 :
  preprocessar_texto (str "  ÀÉÎ×÷ß, ª²½_x  ") = Latin1.u "àéî ß ª²½_x".
Proof. vm_compute. reflexivity. Qed.

(** ** Order and rounding of scores *)

Lemma F_lt_le a b :
  F.isnan a = false -> F.isnan b = false -> F.lt a b = negb (F.le b a).
Proof.
  destruct a as [|[]|p], b as [|[]|q]; simpl; try discriminate; reflexivity.
Qed.


Lemma F_lt_not_nan a b :
  F.lt a b = true -> F.isnan a = false /\ F.isnan b = false.
Proof. destruct a as [|[]|p], b as [|[]|q]; simpl; try discriminate; auto. Qed.

Lemma F_le_refl a : F.isnan a = false -> F.le a a = true.
Proof.
  destruct a as [|[]|p]; simpl; try discriminate; try reflexivity.
  intros _. apply Qle_bool_iff. apply Qle_refl.
Qed.

Lemma F_le_trans a b c :
  F.le a b = true -> F.le b c = true -> F.le a c = true.
Proof.
  destruct a as [|[]|p], b as [|[]|q], c as [|[]|r]; simpl;
    try discriminate; try reflexivity.
  rewrite !Qle_bool_iff. apply Qle_trans.
Qed.

Lemma F_le_total a b :
  F.isnan a = false -> F.isnan b = false ->
  F.le a b = true \/ F.le b a = true.
Proof.
  destruct a as [|[]|p], b as [|[]|q]; simpl; try discriminate; auto.
  intros _ _. rewrite !Qle_bool_iff.
  destruct (Qlt_le_dec p q) as [H|H]; [left; apply Qlt_le_weak; exact H | right; exact H].
Qed.

Lemma F_lt_false_le a b :
  F.isnan a = false -> F.isnan b = false ->
  F.lt a b = false -> F.le b a = true.
Proof.
  intros Ha Hb H. rewrite (F_lt_le a b Ha Hb) in H.
  apply negb_false_iff in H. exact H.
Qed.

Lemma F_lt_true_le a b : F.lt a b = true -> F.le a b = true.
Proof.
  intros H. destruct (F_lt_not_nan a b H) as [Ha Hb].
  rewrite (F_lt_le a b Ha Hb) in H. apply negb_true_iff in H.
  destruct (F_le_total a b Ha Hb) as [L|L]; [exact L | congruence].
Qed.

Lemma round_half_even_spec n d :
  let k := F.round_half_even n d in
  (2 * Z.pos d * k - Z.pos d <= 2 * n <= 2 * Z.pos d * k + Z.pos d)%Z /\
  ((2 * n = 2 * Z.pos d * k + Z.pos d)%Z -> Z.even k = true) /\
  ((2 * n = 2 * Z.pos d * k - Z.pos d)%Z -> Z.even k = true).
Proof.
  unfold F.round_half_even.
  pose proof (Z.div_mod n (Z.pos d) ltac:(lia)) as Hdm.
  pose proof (Z.mod_pos_bound n (Z.pos d) ltac:(lia)) as Hr.
  set (q := (n / Z.pos d)%Z) in *. set (r := (n mod Z.pos d)%Z) in *.
  destruct (Z.compare_spec (2 * r) (Z.pos d)) as [E|L|G]; cbv zeta.
  - destruct (Z.even q) eqn:Ev.
    + repeat split; try nia. intros _. exact Ev.
    + repeat split; try nia. intros _.
      rewrite Z.even_add. rewrite Ev. reflexivity.
  - repeat split; try nia.
  - repeat split; try nia.
Qed.

Lemma round_half_even_mono n1 d1 n2 d2 :
  (n1 * Z.pos d2 <= n2 * Z.pos d1)%Z ->
  (F.round_half_even n1 d1 <= F.round_half_even n2 d2)%Z.
Proof.
  intros Hle.
  destruct (round_half_even_spec n1 d1) as ([L1 U1] & T1 & B1).
  destruct (round_half_even_spec n2 d2) as ([L2 U2] & T2 & B2).
  set (k1 := F.round_half_even n1 d1) in *.
  set (k2 := F.round_half_even n2 d2) in *.
  destruct (Z_le_gt_dec k1 k2) as [H|H]; [exact H|exfalso].
  assert (Hk : (k2 + 1 <= k1)%Z) by lia.
  assert (A1 : (2 * n1 * Z.pos d2 >= (2 * k2 + 1) * (Z.pos d1 * Z.pos d2))%Z) by nia.
  assert (A2 : (2 * n2 * Z.pos d1 <= (2 * k2 + 1) * (Z.pos d1 * Z.pos d2))%Z) by nia.
  assert (E2 : (2 * n2 = 2 * Z.pos d2 * k2 + Z.pos d2)%Z) by nia.
  assert (E1 : (2 * n1 = 2 * Z.pos d1 * k2 + Z.pos d1)%Z) by nia.
  assert (Ek : (k1 = k2 + 1)%Z) by nia.
  assert (E1' : (2 * n1 = 2 * Z.pos d1 * k1 - Z.pos d1)%Z) by nia.
  specialize (T2 E2). specialize (B1 E1').
  rewrite Ek, Z.even_add, T2 in B1. discriminate B1.
Qed.

Lemma round4_mono a b :
  F.le a b = true -> F.le (F.round4 a) (F.round4 b) = true.
Proof.
  destruct a as [|[]|p], b as [|[]|q]; simpl; try discriminate; try reflexivity.
  rewrite !Qle_bool_iff. unfold Qle. simpl. intros H.
  apply Z.mul_le_mono_nonneg_r; [lia|].
  apply round_half_even_mono. nia.
Qed.

Lemma round4_not_nan a : F.isnan a = false -> F.isnan (F.round4 a) = false.
Proof. destruct a as [|[]|p]; simpl; auto. Qed.

Lemma round4_nonneg a :
  F.isnan a = false -> F.le a F.zero = false ->
  F.le F.zero (F.round4 a) = true.
Proof.
  intros Hn Hp.
  assert (H0 : F.le F.zero a = true).
  { destruct (F_le_total F.zero a eq_refl Hn) as [H|H]; [exact H | congruence]. }
  apply round4_mono in H0.
  eapply F_le_trans; [|exact H0]. reflexivity.
Qed.

(** ** [sorted] *)

Lemma insere_desc_perm x l : Permutation (insere_desc x l) (x :: l).
Proof.
  induction l as [|y l IH]; simpl; [reflexivity|].
  destruct (F.lt (snd x) (snd y)); [|reflexivity].
  rewrite IH. apply perm_swap.
Qed.

Lemma sorted_desc_perm l : Permutation (sorted_desc l) l.
Proof.
  induction l as [|x l IH]; simpl; [reflexivity|].
  rewrite insere_desc_perm. apply perm_skip. exact IH.
Qed.

Lemma antes_of_le (x z : nat * float64) :
  F.isnan (snd x) = false -> F.isnan (snd z) = false ->
  F.le (snd z) (snd x) = true -> (fst x < fst z)%nat -> antes x z.
Proof.
  intros Hx Hz Hle Hpos. unfold antes.
  destruct (F.le (snd x) (snd z)) eqn:E.
  - right. auto.
  - left. rewrite (F_lt_le _ _ Hz Hx), E. reflexivity.
Qed.

Lemma antes_le p q : antes p q -> F.le (snd q) (snd p) = true.
Proof. intros [H|(_ & H & _)]; [apply F_lt_true_le; exact H | exact H]. Qed.

Lemma insere_desc_sorted x l :
  F.isnan (snd x) = false -> pares_sem_nan l ->
  Forall (fun y => (fst x < fst y)%nat) l ->
  StronglySorted antes l -> StronglySorted antes (insere_desc x l).
Proof.
  intros Hx. induction l as [|y l IH]; intros Hn Hpos Hs; simpl.
  - constructor; constructor.
  - inversion Hn as [|? ? Hy Hn']; subst.
    inversion Hpos as [|? ? Hxy Hpos']; subst.
    apply StronglySorted_inv in Hs as [Hs Hall].
    destruct (F.lt (snd x) (snd y)) eqn:E.
    + constructor; [apply IH; assumption|].
      eapply Permutation_Forall; [symmetry; apply insere_desc_perm|].
      constructor; [left; exact E | exact Hall].
    + pose proof (F_lt_false_le _ _ Hx Hy E) as Hle.
      constructor; [constructor; assumption|].
      constructor; [apply antes_of_le; assumption|].
      rewrite !List.Forall_forall in *. intros z Hz.
      apply antes_of_le; [exact Hx | apply Hn'; exact Hz | | apply Hpos'; exact Hz].
      eapply F_le_trans; [apply antes_le, Hall; exact Hz | exact Hle].
Qed.

Lemma sorted_desc_sorted l :
  pares_sem_nan l ->
  StronglySorted (fun p q : nat * float64 => (fst p < fst q)%nat) l ->
  StronglySorted antes (sorted_desc l).
Proof.
  induction l as [|x l IH]; intros Hn Hs; simpl; [constructor|].
  inversion Hn; subst. apply StronglySorted_inv in Hs as [Hs Hall].
  apply insere_desc_sorted; auto.
  - eapply Permutation_Forall; [symmetry; apply sorted_desc_perm | assumption].
  - eapply Permutation_Forall; [symmetry; apply sorted_desc_perm | assumption].
Qed.

(** The ranking order admits one sorted arrangement only: whatever stable
    sort Python runs, on keys without NaN its result is [sorted_desc]. *)
Lemma antes_assimetrica p q : antes p q -> antes q p -> False.
Proof.
  intros [H1|(L1 & L1' & P1)] [H2|(L2 & L2' & P2)].
  - destruct (F_lt_not_nan _ _ H1) as [Hq Hp].
    rewrite (F_lt_le _ _ Hq Hp) in H1. apply negb_true_iff in H1.
    rewrite (F_lt_true_le _ _ H2) in H1. discriminate H1.
  - destruct (F_lt_not_nan _ _ H1) as [Hq Hp].
    rewrite (F_lt_le _ _ Hq Hp), L2' in H1. discriminate H1.
  - destruct (F_lt_not_nan _ _ H2) as [Hp Hq].
    rewrite (F_lt_le _ _ Hp Hq), L1' in H2. discriminate H2.
  - lia.
Qed.

Lemma ordenacao_unica (l1 l2 : list (nat * float64)) :
  Permutation l1 l2 -> StronglySorted antes l1 -> StronglySorted antes l2 ->
  l1 = l2.
Proof.
  revert l2. induction l1 as [|x l1 IH]; intros l2 HP H1 H2.
  - apply Permutation_nil in HP. subst. reflexivity.
  - destruct l2 as [|y l2];
      [apply Permutation_sym, Permutation_nil in HP; discriminate|].
    apply StronglySorted_inv in H1 as [H1 A1].
    apply StronglySorted_inv in H2 as [H2 A2].
    rewrite !List.Forall_forall in *.
    assert (E : x = y).
    { assert (Hx : In x (y :: l2))
        by (eapply Permutation_in; [exact HP | left; reflexivity]).
      assert (Hy : In y (x :: l1))
        by (eapply Permutation_in;
            [apply Permutation_sym; exact HP | left; reflexivity]).
      destruct Hx as [Hx|Hx]; [congruence|].
      destruct Hy as [Hy|Hy]; [congruence|].
      exfalso. eapply antes_assimetrica; [apply A1, Hy | apply A2, Hx]. }
    subst y. f_equal. apply IH.
    + eapply Permutation_cons_inv; exact HP.
    + exact H1.
    + exact H2.
Qed.

Lemma sorted_desc_unico l l' :
  pares_sem_nan l ->
  StronglySorted (fun p q : nat * float64 => (fst p < fst q)%nat) l ->
  Permutation l' l -> StronglySorted antes l' ->
  l' = sorted_desc l.
Proof.
  intros Hn Hs HP Hs'. apply ordenacao_unica.
  - rewrite HP. symmetry. apply sorted_desc_perm.
  - exact Hs'.
  - apply sorted_desc_sorted; assumption.
Qed.

Lemma enumerate_from_bounds {A : Type} i (l : list A) :
  Forall (fun p => (i <= fst p)%nat) (enumerate_from i l).
Proof.
  revert i. induction l as [|x l IH]; intros i; simpl; constructor; [simpl; lia|].
  eapply List.Forall_impl; [|apply IH]. simpl. intros; lia.
Qed.

Lemma enumerate_from_increasing {A : Type} i (l : list A) :
  StronglySorted (fun p q : nat * A => (fst p < fst q)%nat) (enumerate_from i l).
Proof.
  revert i. induction l as [|x l IH]; intros i; simpl; constructor; [apply IH|].
  eapply List.Forall_impl; [|apply enumerate_from_bounds]. simpl. intros; lia.
Qed.

Lemma enumerate_from_lookup {A : Type} i (l : list A) p :
  In p (enumerate_from i l) ->
  (i <= fst p)%nat /\ l !! (fst p - i)%nat = Some (snd p).
Proof.
  revert i. induction l as [|x l IH]; intros i; simpl; [tauto|].
  intros [<-|H]; simpl.
  - split; [lia|]. replace (i - i)%nat with 0%nat by lia. reflexivity.
  - destruct (IH _ H) as [Hle Hl]. split; [lia|].
    replace (fst p - i)%nat with (S (fst p - S i)) by lia. exact Hl.
Qed.

Lemma enumerate_sem_nan i l : sem_nan l -> pares_sem_nan (enumerate_from i l).
Proof.
  revert i. induction l as [|x l IH]; intros i H; simpl; [constructor|].
  inversion H; subst. constructor; [assumption | apply IH; assumption].
Qed.

Lemma enumerate_from_length {A : Type} i (l : list A) :
  length (enumerate_from i l) = length l.
Proof. revert i. induction l; intros; simpl; [reflexivity | f_equal; auto]. Qed.

(** ** Lists *)

Lemma In_firstn {A : Type} k (l : list A) x : In x (firstn k l) -> In x l.
Proof.
  revert k. induction l as [|y l IH]; intros [|k]; simpl; try tauto.
  intros [H|H]; [left; exact H | right; eapply IH; exact H].
Qed.

Lemma StronglySorted_firstn {A : Type} (R : A -> A -> Prop) k l :
  StronglySorted R l -> StronglySorted R (firstn k l).
Proof.
  revert k. induction l as [|x l IH]; intros [|k] H; simpl; try constructor.
  - apply IH. apply StronglySorted_inv in H. tauto.
  - apply StronglySorted_inv in H as [_ H].
    rewrite !List.Forall_forall in *. intros y Hy. apply H.
    eapply In_firstn; exact Hy.
Qed.

Lemma StronglySorted_filter {A : Type} (R : A -> A -> Prop) f l :
  StronglySorted R l -> StronglySorted R (List.filter f l).
Proof.
  induction l as [|x l IH]; intros H; simpl; [constructor|].
  apply StronglySorted_inv in H as [Hs Hall].
  destruct (f x); [|auto].
  constructor; [auto|].
  rewrite !List.Forall_forall in *. intros y Hy. apply Hall.
  apply List.filter_In in Hy. tauto.
Qed.

Lemma slice_to_firstn {A : Type} k (l : list A) :
  exists n, slice_to k l = firstn n l /\ ((0 <= k)%Z -> n = Z.to_nat k).
Proof.
  unfold slice_to. destruct (k <? 0)%Z eqn:E.
  - eexists; split; [reflexivity|]. apply Z.ltb_lt in E. lia.
  - eexists; split; [reflexivity|]. reflexivity.
Qed.

Lemma StronglySorted_Forall2 {A B : Type} (R : A -> A -> Prop)
  (S : B -> B -> Prop) (T : A -> B -> Prop) la lb :
  (forall a a' b b', T a b -> T a' b' -> R a a' -> S b b') ->
  Forall2 T la lb -> StronglySorted R la -> StronglySorted S lb.
Proof.
  intros HT H. induction H as [|a b la lb Hab H IH]; intros Hs; [constructor|].
  apply StronglySorted_inv in Hs as [Hs Hall].
  constructor; [auto|].
  clear IH Hs. induction H as [|a' b' la lb Hab' H IH]; [constructor|].
  inversion Hall; subst. constructor; [eapply HT; eassumption | auto].
Qed.

(** ** Frame of the state operations *)

Lemma mesmos_globais_refl {V num : Type} (st : estado V num) :
  mesmos_globais st st.
Proof. repeat split. Qed.

Lemma mesmos_globais_trans {V num : Type} (a b c : estado V num) :
  mesmos_globais a b -> mesmos_globais b c -> mesmos_globais a c.
Proof.
  unfold mesmos_globais. intros (?&?&?&?&?&?&?) (?&?&?&?&?&?&?).
  repeat split; congruence.
Qed.

Lemma mesmos_globais_print {V num : Type} msg (st : estado V num) :
  mesmos_globais st (print msg st).
Proof. repeat split. Qed.

Lemma inicializar_matcher_listas {V num : Type} fit cos (st : estado V num) :
  trabalhadores (inicializar_matcher fit cos st) = trabalhadores st /\
  vagas (inicializar_matcher fit cos st) = vagas st.
Proof.
  unfold inicializar_matcher. cbv zeta.
  destruct (vazia _ || vazia _); [split; reflexivity|].
  destruct (fit _ _) as [v [m|e]]; [|split; reflexivity].
  destruct (cos _ _); split; reflexivity.
Qed.

(** ** The loop of the ranker *)

Lemma montar_match_sim vaga s m :
  montar_match vaga s = inr m -> similaridade m = F.round4 s.
Proof.
  unfold montar_match.
  destruct (vaga !! "id"); [|discriminate].
  destruct (vaga !! "titulo"); [|discriminate].
  destruct (vaga !! "empresa"); [|discriminate].
  intros [= <-]. reflexivity.
Qed.

Section Percorrer.
Context {V : Type}.
Implicit Type st : estado V float64.

Lemma percorrer_globais pares acc st :
  mesmos_globais st (snd (percorrer pares acc st)).
Proof.
  revert acc st. induction pares as [|[j s] pares IH]; intros acc st; simpl.
  - apply mesmos_globais_refl.
  - destruct (F.isnan s || F.le s F.zero); [apply IH|].
    destruct (j <? length (vagas st))%nat.
    + destruct (vagas st !! j) as [d|]; [|apply mesmos_globais_refl].
      destruct (montar_match d s); [apply mesmos_globais_refl | apply IH].
    + eapply mesmos_globais_trans; [apply mesmos_globais_print | apply IH].
Qed.

Lemma percorrer_spec pares acc st res st' :
  percorrer pares acc st = (inr res, st') ->
  exists ms, res = (acc ++ ms)%list
             /\ Forall2 (emitido (vagas st)) (retidos (vagas st) pares) ms.
Proof.
  revert acc st. induction pares as [|[j s] pares IH]; intros acc st; simpl.
  - intros [= <- <-]. exists []. split; [symmetry; apply app_nil_r | constructor].
  - unfold retidos, positivo. simpl.
    destruct (F.isnan s || F.le s F.zero); simpl; [apply IH|].
    destruct (j <? length (vagas st))%nat eqn:Ej.
    + destruct (vagas st !! j) as [vaga|] eqn:Ev; [|discriminate].
      destruct (montar_match vaga s) as [e|m] eqn:Em; [discriminate|].
      intros H. apply IH in H as (ms & -> & HF).
      exists (m :: ms). split; [rewrite <- app_assoc; reflexivity|].
      constructor; [|exact HF]. exists vaga. auto.
    + intros H. apply IH in H as (ms & -> & HF).
      exists ms. split; [reflexivity | exact HF].
Qed.

End Percorrer.

(** ** The ranker, case by case *)

Section Ranker.
Context {V : Type}.
Variable fit : V -> list string -> V * resultado (list (list float64)).
Variable cos :
  list (list float64) -> list (list float64)
  -> resultado (list (list float64)).
Implicit Type st : estado V float64.

Lemma apos_guarda_valida st m :
  matriz_similaridade_global st = Matriz m -> apos_guarda fit cos st = st.
Proof. unfold apos_guarda. intros ->. reflexivity. Qed.

Lemma apos_guarda_listas st :
  trabalhadores (apos_guarda fit cos st) = trabalhadores st /\
  vagas (apos_guarda fit cos st) = vagas st.
Proof.
  unfold apos_guarda.
  destruct (matriz_similaridade_global st); try (split; reflexivity);
    apply (inicializar_matcher_listas fit cos (print _ st)).
Qed.

(** When a list is returned, every earlier test has passed. *)
Lemma encontrar_lista id_trabalhador top_n st st' l :
  encontrar_matches_para_trabalhador fit cos id_trabalhador top_n st
  = (inr (Lista l), st') ->
  exists m i linha,
    matriz_similaridade_global (apos_guarda fit cos st) = Matriz m
    /\ indice_trabalhador id_trabalhador
         (trabalhadores (apos_guarda fit cos st)) 0 = inr (Some i)
    /\ getitem m i = Some (Vetor linha)
    /\ percorrer (slice_to top_n (sorted_desc (enumerate linha))) []
         (apos_guarda fit cos st) = (inr l, st').
Proof.
  unfold encontrar_matches_para_trabalhador.
  change (match matriz_similaridade_global st with
          | Matriz _ => st
          | _ => inicializar_matcher fit cos (print msg_matriz_nao_inicializada st)
          end) with (apos_guarda fit cos st).
  cbv zeta. set (st1 := apos_guarda fit cos st).
  destruct (matriz_similaridade_global st1) as [|m|] eqn:Em; try discriminate.
  destruct (indice_trabalhador id_trabalhador (trabalhadores st1) 0)
    as [e|[i|]] eqn:Ei; try discriminate.
  destruct (shape0 m <=? i)%nat; [discriminate|].
  destruct (getitem m i) as [[x|linha]|] eqn:Eg; try discriminate.
  destruct (percorrer _ _ st1) as [[e|res] st2] eqn:Ep; [discriminate|].
  intros [= <- <-]. exists m, i, linha. auto.
Qed.

Lemma getitem_sem_nan (m : ndarray float64) i linha :
  matriz_sem_nan (Matriz m) -> getitem m i = Some (Vetor linha) ->
  sem_nan linha.
Proof.
  destruct m as [v|rows]; simpl.
  - destruct (v !! i); discriminate.
  - intros H. destruct (rows !! i) as [r|] eqn:E; [|discriminate].
    intros [= <-]. rewrite List.Forall_forall in H. apply H.
    apply list_elem_of_In. eapply list_elem_of_lookup_2; exact E.
Qed.

End Ranker.

(** ** Claims on the ranking *)

Section Ranking.
Context {V : Type}.
Variable fit : V -> list string -> V * resultado (list (list float64)).
Variable cos :
  list (list float64) -> list (list float64)
  -> resultado (list (list float64)).
Implicit Type st : estado V float64.

Lemma ordenados_antes linha :
  sem_nan linha -> StronglySorted antes (sorted_desc (enumerate linha)).
Proof.
  intros H. apply sorted_desc_sorted.
  - apply enumerate_sem_nan. exact H.
  - apply enumerate_from_increasing.
Qed.

Lemma In_ordenados linha p :
  In p (sorted_desc (enumerate linha)) -> linha !! fst p = Some (snd p).
Proof.
  intros H.
  apply (Permutation_in _ (sorted_desc_perm (enumerate linha))) in H.
  apply enumerate_from_lookup in H as [_ H].
  replace (fst p - 0)%nat with (fst p) in H by lia. exact H.
Qed.

Lemma In_slice_to {A : Type} k (l : list A) x : In x (slice_to k l) -> In x l.
Proof.
  destruct (slice_to_firstn k l) as (n & -> & _). apply In_firstn.
Qed.

Lemma slice_to_length {A : Type} k (l : list A) :
  (0 <= k)%Z -> (Z.of_nat (length (slice_to k l)) <= k)%Z.
Proof.
  intros Hk. destruct (slice_to_firstn k l) as (n & -> & Hn).
  rewrite (Hn Hk). rewrite length_firstn. lia.
Qed.

Lemma retidos_length vs pares : (length (retidos vs pares) <= length pares)%nat.
Proof. unfold retidos. apply List.filter_length_le. Qed.

(** C1, as the code has it.  Whenever a list is returned for [top_n >= 1]
    from a similarity matrix without NaN: the list has at most [top_n]
    entries; the emitted similarities do not increase along the list;
    every entry comes from a pair (job position, score) of the worker's
    row whose score is greater than 0, and its emitted similarity, the
    score rounded to four decimals, is at least 0; the pairs are ranked by
    decreasing score, pairs of equal score by increasing job position. *)
Theorem matches_limitados_e_ordenados id_trabalhador top_n st st' l :
  (1 <= top_n)%Z ->
  matriz_sem_nan (matriz_similaridade_global st') ->
  encontrar_matches_para_trabalhador fit cos id_trabalhador top_n st
  = (inr (Lista l), st') ->
  (Z.of_nat (length l) <= top_n)%Z /\
  StronglySorted nao_crescente l /\
  Forall (fun m => F.le F.zero (similaridade m) = true) l /\
  exists i m linha pares,
    indice_trabalhador id_trabalhador (trabalhadores st') 0 = inr (Some i)
    /\ matriz_similaridade_global st' = Matriz m
    /\ getitem m i = Some (Vetor linha)
    /\ Forall2 (emitido (vagas st')) pares l
    /\ Forall (fun p => linha !! fst p = Some (snd p)
                        /\ positivo (snd p) = true) pares
    /\ StronglySorted antes pares.
Proof.
  intros Hn Hnan H.
  apply encontrar_lista in H as (m & i & linha & Em & Ei & Eg & Ep).
  set (st1 := apos_guarda fit cos st) in *.
  pose proof (percorrer_globais
                (slice_to top_n (sorted_desc (enumerate linha))) [] st1) as G.
  rewrite Ep in G. simpl in G.
  destruct G as (Gt & Gv & _ & Gm & _).
  rewrite Gm, Em in Hnan.
  pose proof (getitem_sem_nan m i linha Hnan Eg) as Hl.
  apply percorrer_spec in Ep as (ms & -> & HF). simpl.
  set (pares := retidos (vagas st1)
                  (slice_to top_n (sorted_desc (enumerate linha)))) in *.
  assert (Hs : StronglySorted antes pares).
  { unfold pares, retidos. apply StronglySorted_filter.
    destruct (slice_to_firstn top_n (sorted_desc (enumerate linha)))
      as (n & -> & _).
    apply StronglySorted_firstn, ordenados_antes, Hl. }
  assert (Hp : Forall (fun p => linha !! fst p = Some (snd p)
                                /\ positivo (snd p) = true) pares).
  { apply List.Forall_forall. intros p Hin. unfold pares, retidos in Hin.
    apply List.filter_In in Hin as [Hin Hb].
    apply andb_prop in Hb as [Hb _].
    split; [|exact Hb]. apply In_ordenados. eapply In_slice_to; exact Hin. }
  split; [|split; [|split]].
  - rewrite <- (Forall2_length _ _ _ HF).
    pose proof (retidos_length (vagas st1)
                  (slice_to top_n (sorted_desc (enumerate linha)))).
    pose proof (slice_to_length top_n (sorted_desc (enumerate linha))
                  ltac:(lia)).
    fold pares in H. lia.
  - eapply (StronglySorted_Forall2 antes nao_crescente); [|exact HF|exact Hs].
    intros a a' b b' (va & _ & Ha) (vb & _ & Hb) Hab.
    unfold nao_crescente.
    rewrite (montar_match_sim _ _ _ Ha), (montar_match_sim _ _ _ Hb).
    apply round4_mono, antes_le, Hab.
  - clear Hs. induction HF as [|p b pares' ms' Hpb HF IH]; [constructor|].
    inversion Hp as [|? ? [_ Hpos] Hp']; subst.
    constructor; [|apply IH; exact Hp'].
    destruct Hpb as (vaga & _ & Hm).
    rewrite (montar_match_sim _ _ _ Hm).
    unfold positivo in Hpos. apply negb_true_iff in Hpos.
    apply orb_false_iff in Hpos as [Hnn Hle].
    apply round4_nonneg; assumption.
  - exists i, m, linha, pares.
    rewrite Gt, Gv, Gm. repeat split; assumption.
Qed.

End Ranking.

(** ** Cutting before filtering *)





Lemma retidos_selecao vs top_n L :
  retidos vs (slice_to top_n L)
  = List.filter (fun p => (fst p <? length vs)%nat) (selecao_codigo top_n L).
Proof.
  unfold retidos, selecao_codigo.
  induction (slice_to top_n L) as [|p l IH]; simpl; [reflexivity|].
  destruct (positivo (snd p)); simpl; [|exact IH].
  destruct (fst p <? length vs)%nat; [f_equal|]; exact IH.
Qed.

Lemma filter_todos {A : Type} (f : A -> bool) l :
  Forall (fun x => f x = true) l -> List.filter f l = l.
Proof.
  induction 1 as [|x l Hx _ IH]; simpl; [reflexivity|].
  rewrite Hx, IH. reflexivity.
Qed.

Lemma positivos_insere x l :
  length (List.filter (fun p : nat * float64 => positivo (snd p)) (insere_desc x l))
  = length (List.filter (fun p : nat * float64 => positivo (snd p)) (x :: l)).
Proof.
  induction l as [|y l IH]; [reflexivity|].
  simpl insere_desc. destruct (F.lt (snd x) (snd y)); [|reflexivity].
  simpl in *. destruct (positivo (snd y)), (positivo (snd x)); simpl in *; lia.
Qed.

Lemma positivos_ordenados l :
  length (List.filter (fun p : nat * float64 => positivo (snd p)) (sorted_desc l))
  = length (List.filter (fun p : nat * float64 => positivo (snd p)) l).
Proof.
  induction l as [|x l IH]; [reflexivity|].
  simpl sorted_desc. rewrite positivos_insere. simpl.
  destruct (positivo (snd x)); simpl; lia.
Qed.

Lemma positivos_enumerate i l :
  length (List.filter (fun p : nat * float64 => positivo (snd p))
            (enumerate_from i l))
  = length (List.filter positivo l).
Proof.
  revert i. induction l as [|x l IH]; intros i; [reflexivity|].
  simpl. destruct (positivo x); simpl; rewrite IH; reflexivity.
Qed.

Section Selecao.
Context {V : Type}.
Variable fit : V -> list string -> V * resultado (list (list float64)).
Variable cos :
  list (list float64) -> list (list float64)
  -> resultado (list (list float64)).
Implicit Type st : estado V float64.


End Selecao.

(** ** The ranker on concrete rows *)

(** C1 fails as stated.  A score below 0.00005 passes the test [> 0] and is
    emitted as 0.0; with a NaN in the row the emitted similarities can
    increase; two scores that differ only after the fourth decimal are
    emitted as equal similarities in the order of their scores, not of their
    job positions. *)
Lemma matches_contraexemplo :
  (exists m,
     fst (encontrar_matches_para_trabalhador Exemplo.fit Exemplo.cos "t1" 1
            (Exemplo.com_linha [Fin (1 # 32768)])) = inr (Lista [m])
     /\ F.lt F.zero (similaridade m) = false) /\
  (exists m1 m2,
     fst (encontrar_matches_para_trabalhador Exemplo.fit Exemplo.cos "t1" 3
            (Exemplo.com_linha [Fin (1 # 4); NaN; Fin (1 # 2)]))
     = inr (Lista [m1; m2])
     /\ F.lt (similaridade m1) (similaridade m2) = true) /\
  (exists m1 m2,
     fst (encontrar_matches_para_trabalhador Exemplo.fit Exemplo.cos "t1" 2
            (Exemplo.com_linha
               [Fin (524289 # 1048576); Fin (524290 # 1048576)]))
     = inr (Lista [m1; m2])
     /\ similaridade m1 = similaridade m2
     /\ id_vaga m1 = PStr "v2" /\ id_vaga m2 = PStr "v1").
Proof.
  split; [|split].
  - eexists. split; vm_compute; reflexivity.
  - eexists. eexists. split; vm_compute; reflexivity.
  - eexists. eexists. repeat split; vm_compute; reflexivity.
Qed.

Lemma matches_limitados_e_ordenados_witness :
  exists l,
    fst (encontrar_matches_para_trabalhador Exemplo.fit Exemplo.cos "t1" 2
           (Exemplo.com_linha [Fin (1 # 4); Fin (1 # 2); Fin 0]))
    = inr (Lista l)
    /\ (Z.of_nat (length l) <= 2)%Z
    /\ StronglySorted nao_crescente l.
Proof.
  eexists. split; [vm_compute; reflexivity|].
  refine (let H := matches_limitados_e_ordenados Exemplo.fit Exemplo.cos "t1" 2
                     (Exemplo.com_linha [Fin (1 # 4); Fin (1 # 2); Fin 0])
                     (Exemplo.com_linha [Fin (1 # 4); Fin (1 # 2); Fin 0])
                     _ _ _ _ in
          conj (proj1 H) (proj1 (proj2 H))).
  - lia.
  - simpl. repeat constructor.
  - vm_compute. reflexivity.
Defined.

(** C2, at the input on which the code fails it.  The row is [[NaN, 0.5]]
    and [top_n = 1].  The row has one positive score that is not NaN, and
    filtering before cutting selects the pair of job 1, so that the claim
    gives a list of one entry.  The code tests [np.isnan] inside the loop,
    but only on the pairs that the slice has kept: [sorted] leaves the NaN
    pair in front, since no comparison with NaN is true, the slice keeps
    that pair alone, and the call returns the empty list. *)
Lemma corte_contraexemplo :
  (1 <= Z.of_nat (length (List.filter positivo [NaN; Fin (1 # 2)])))%Z /\
  selecao_spec 1 (sorted_desc (enumerate [NaN; Fin (1 # 2)]))
  = [(1%nat, Fin (1 # 2))] /\
  selecao_codigo 1 (sorted_desc (enumerate [NaN; Fin (1 # 2)])) = [] /\
  fst (encontrar_matches_para_trabalhador Exemplo.fit Exemplo.cos "t1" 1
         (Exemplo.com_linha [NaN; Fin (1 # 2)])) = inr (Lista []).
Proof.
  repeat split; try (vm_compute; reflexivity).
  simpl. lia.
Qed.


(** ** Messages on the standard output *)

Lemma first_app a b c : Str.first a = Some c -> Str.first (a +:+ b) = Some c.
Proof. destruct a; [discriminate | exact (fun H => H)]. Qed.

Lemma primeiro_distingue s t : Str.first s <> Str.first t -> s <> t.
Proof. intros H E. apply H. rewrite E. reflexivity. Qed.

Ltac outra_mensagem :=
  apply primeiro_distingue;
  repeat (erewrite first_app; [|vm_compute; reflexivity]);
  vm_compute; discriminate.

Lemma inicializacoes_print msg out :
  msg <> msg_inicializando -> inicializacoes (msg :: out) = inicializacoes out.
Proof. intros H. unfold inicializacoes. apply count_occ_cons_neq. exact H. Qed.

Lemma msg_erro_ajuste_outra e : msg_erro_ajuste e <> msg_inicializando.
Proof. unfold msg_erro_ajuste. outra_mensagem. Qed.

Lemma msg_vaga_fora_outra j : msg_vaga_fora j <> msg_inicializando.
Proof. unfold msg_vaga_fora. outra_mensagem. Qed.

Lemma msg_indice_fora_outra i n : msg_indice_fora i n <> msg_inicializando.
Proof. unfold msg_indice_fora. outra_mensagem. Qed.

Lemma msg_vetor_invalido_outra id : msg_vetor_invalido id <> msg_inicializando.
Proof. unfold msg_vetor_invalido. outra_mensagem. Qed.

Lemma msg_nao_encontrado_outra id :
  "Erro: " +:+ erro_nao_encontrado id <> msg_inicializando.
Proof. outra_mensagem. Qed.

Lemma erro_nao_encontrado_distinto id :
  erro_nao_encontrado id <> erro_falha_inicializar.
Proof. unfold erro_nao_encontrado. outra_mensagem. Qed.

Lemma inicializar_matcher_conta {V num : Type} fit cos (st : estado V num) :
  inicializacoes (stdout (inicializar_matcher fit cos st))
  = S (inicializacoes (stdout st)).
Proof.
  unfold inicializar_matcher. cbv zeta.
  assert (H0 : inicializacoes (msg_inicializando :: stdout st)
               = S (inicializacoes (stdout st))).
  { unfold inicializacoes. apply count_occ_cons_eq. reflexivity. }
  destruct (vazia _ || vazia _).
  - simpl stdout. rewrite inicializacoes_print by (vm_compute; discriminate).
    exact H0.
  - destruct (fit _ _) as [v [m|e]].
    + destruct (cos _ _) as [sim|e]; simpl stdout.
      * rewrite inicializacoes_print by (vm_compute; discriminate). exact H0.
      * rewrite inicializacoes_print by apply msg_erro_ajuste_outra. exact H0.
    + simpl stdout.
      rewrite inicializacoes_print by apply msg_erro_ajuste_outra. exact H0.
Qed.

Lemma percorrer_conta {V : Type} pares acc (st : estado V float64) :
  inicializacoes (stdout (snd (percorrer pares acc st)))
  = inicializacoes (stdout st).
Proof.
  revert acc st. induction pares as [|[j s] pares IH]; intros acc st; simpl.
  - reflexivity.
  - destruct (F.isnan s || F.le s F.zero); [apply IH|].
    destruct (j <? length (vagas st))%nat.
    + destruct (vagas st !! j) as [d|]; [|reflexivity].
      destruct (montar_match d s); [reflexivity | apply IH].
    + rewrite IH. simpl stdout. apply inicializacoes_print, msg_vaga_fora_outra.
Qed.

(** ** State after a query *)

Section Consulta.
Context {V : Type}.
Variable fit : V -> list string -> V * resultado (list (list float64)).
Variable cos :
  list (list float64) -> list (list float64)
  -> resultado (list (list float64)).
Implicit Type st : estado V float64.

Lemma encontrar_desdobra id_trabalhador top_n st :
  encontrar_matches_para_trabalhador fit cos id_trabalhador top_n st
  = let st := apos_guarda fit cos st in
    match matriz_similaridade_global st with
    | Nenhum | Outro => (inr (DictErro erro_falha_inicializar), st)
    | Matriz matriz =>
        match indice_trabalhador id_trabalhador (trabalhadores st) 0 with
        | inl e => (inl e, st)
        | inr None =>
            (inr (DictErro (erro_nao_encontrado id_trabalhador)),
             print ("Erro: " +:+ erro_nao_encontrado id_trabalhador) st)
        | inr (Some indice) =>
            if (shape0 matriz <=? indice)%nat then
              (inr (DictErro erro_indice_fora),
               print (msg_indice_fora indice (shape0 matriz)) st)
            else
              match getitem matriz indice with
              | None => (inl IndexError, st)
              | Some (Escalar _) =>
                  (inr (DictErro erro_vetor_invalido),
                   print (msg_vetor_invalido id_trabalhador) st)
              | Some (Vetor similaridades_vagas) =>
                  match percorrer
                          (slice_to top_n
                             (sorted_desc (enumerate similaridades_vagas)))
                          [] st with
                  | (inl e, st) => (inl e, st)
                  | (inr resultado_matches, st) =>
                      (inr (Lista resultado_matches), st)
                  end
              end
        end
    end.
Proof. reflexivity. Qed.

Lemma encontrar_falha id_trabalhador top_n st :
  is_ndarray (matriz_similaridade_global (apos_guarda fit cos st)) = false ->
  encontrar_matches_para_trabalhador fit cos id_trabalhador top_n st
  = (inr (DictErro erro_falha_inicializar), apos_guarda fit cos st).
Proof.
  rewrite encontrar_desdobra. cbv zeta.
  destruct (matriz_similaridade_global (apos_guarda fit cos st));
    [reflexivity | discriminate | reflexivity].
Qed.

Lemma encontrar_estado id_trabalhador top_n st :
  let r := encontrar_matches_para_trabalhador fit cos id_trabalhador top_n st in
  mesmos_globais (apos_guarda fit cos st) (snd r)
  /\ inicializacoes (stdout (snd r))
     = inicializacoes (stdout (apos_guarda fit cos st)).
Proof.
  cbv zeta. rewrite encontrar_desdobra. cbv zeta.
  set (st1 := apos_guarda fit cos st).
  destruct (matriz_similaridade_global st1) as [|m|];
    try (split; [apply mesmos_globais_refl | reflexivity]).
  destruct (indice_trabalhador id_trabalhador (trabalhadores st1) 0)
    as [e|[i|]].
  - split; [apply mesmos_globais_refl | reflexivity].
  - destruct (shape0 m <=? i)%nat.
    + split; [apply mesmos_globais_print|]. simpl.
      apply inicializacoes_print, msg_indice_fora_outra.
    + destruct (getitem m i) as [[x|linha]|].
      * split; [apply mesmos_globais_print|]. simpl.
        apply inicializacoes_print, msg_vetor_invalido_outra.
      * pose proof (percorrer_globais
                      (slice_to top_n (sorted_desc (enumerate linha))) [] st1) as G.
        pose proof (percorrer_conta
                      (slice_to top_n (sorted_desc (enumerate linha))) [] st1) as C.
        destruct (percorrer _ _ st1) as [[e|res] st2]; simpl in *; auto.
      * split; [apply mesmos_globais_refl | reflexivity].
  - split; [apply mesmos_globais_print|]. simpl.
    apply inicializacoes_print, msg_nao_encontrado_outra.
Qed.

End Consulta.

(** ** Claims on failures and on the state *)

Lemma indice_trabalhador_ausente id_trabalhador ts i :
  Forall (fun t : dict =>
            exists v, t !! "id" = Some v /\ py_eq_str v id_trabalhador = false) ts ->
  indice_trabalhador id_trabalhador ts i = inr None.
Proof.
  intros H. revert i. induction H as [|t ts (v & Hv & Hne) _ IH]; intros i; simpl.
  - reflexivity.
  - rewrite Hv, Hne. apply IH.
Qed.

Lemma indice_trabalhador_sem_excecao id_trabalhador ts i :
  forallb (tem_chaves ["id"]) ts = true ->
  exists o, indice_trabalhador id_trabalhador ts i = inr o.
Proof.
  revert i. induction ts as [|t ts IH]; intros i H; simpl; [eauto|].
  simpl in H. apply andb_prop in H as [Ht H].
  unfold tem_chaves in Ht. simpl in Ht.
  destruct (t !! "id") as [v|]; [|discriminate].
  destruct (py_eq_str v id_trabalhador); eauto.
Qed.

Lemma montar_match_sem_excecao vaga s :
  tem_chaves ["id"; "titulo"; "empresa"] vaga = true ->
  exists m, montar_match vaga s = inr m.
Proof.
  unfold tem_chaves, montar_match. simpl.
  destruct (vaga !! "id"); [|discriminate].
  destruct (vaga !! "titulo"); [|discriminate].
  destruct (vaga !! "empresa"); [|discriminate].
  eauto.
Qed.

Lemma percorrer_sem_excecao {V : Type} pares acc (st : estado V float64) :
  forallb (tem_chaves ["id"; "titulo"; "empresa"]) (vagas st) = true ->
  exists res, fst (percorrer pares acc st) = inr res.
Proof.
  revert acc st. induction pares as [|[j s] pares IH]; intros acc st H; simpl.
  - eauto.
  - destruct (F.isnan s || F.le s F.zero); [apply IH; exact H|].
    destruct (j <? length (vagas st))%nat eqn:Ej.
    + apply Nat.ltb_lt in Ej.
      destruct (lookup_lt_is_Some_2 (vagas st) j Ej) as [vaga Hv].
      rewrite Hv.
      assert (Hk : tem_chaves ["id"; "titulo"; "empresa"] vaga = true).
      { rewrite forallb_forall in H. apply H.
        apply list_elem_of_In. eapply list_elem_of_lookup_2; exact Hv. }
      destruct (montar_match_sem_excecao vaga s Hk) as [m ->].
      apply IH. exact H.
    + apply IH. exact H.
Qed.

Lemma getitem_dentro {num : Type} (m : ndarray num) i :
  (i < shape0 m)%nat -> exists x, getitem m i = Some x.
Proof.
  destruct m as [v|rows]; simpl; intros H;
    apply lookup_lt_is_Some_2 in H as [x ->]; simpl; eauto.
Qed.

Section Falhas.
Context {V : Type}.
Variable fit : V -> list string -> V * resultado (list (list float64)).
Variable cos :
  list (list float64) -> list (list float64)
  -> resultado (list (list float64)).
Implicit Type st : estado V float64.

(** C3. When the cache does not hold an array at the call, the state the
    call leaves is, apart from later lines of output, the one produced by
    running [inicializar_matcher] once, and the initialiser has announced
    itself exactly once more; if the cache still holds no array after
    that run, the call returns the dictionary of the initialisation
    failure, and no exception. *)
Theorem reinicializacao_unica id_trabalhador top_n st :
  is_ndarray (matriz_similaridade_global st) = false ->
  let st1 :=
    inicializar_matcher fit cos (print msg_matriz_nao_inicializada st) in
  let r := encontrar_matches_para_trabalhador fit cos id_trabalhador top_n st in
  mesmos_globais st1 (snd r)
  /\ inicializacoes (stdout (snd r)) = S (inicializacoes (stdout st))
  /\ (is_ndarray (matriz_similaridade_global st1) = false ->
      r = (inr (DictErro erro_falha_inicializar), st1)).
Proof.
  intros Hinv. cbv zeta.
  assert (Eg : apos_guarda fit cos st
               = inicializar_matcher fit cos
                   (print msg_matriz_nao_inicializada st)).
  { unfold apos_guarda.
    destruct (matriz_similaridade_global st); [reflexivity | discriminate | reflexivity]. }
  destruct (encontrar_estado fit cos id_trabalhador top_n st) as [G C].
  rewrite Eg in G, C.
  split; [exact G|]. split.
  - rewrite C, inicializar_matcher_conta. simpl.
    rewrite inicializacoes_print by (vm_compute; discriminate). reflexivity.
  - intros H. rewrite <- Eg in H |- *. apply encontrar_falha. exact H.
Qed.

(** C4, as the code has it.  The worker is looked up after the guard that
    opens the function.  When the similarity matrix is available once that
    guard has run (cached at the call, or cached by the single
    re-initialisation), a worker id that equals the id of no record makes
    the call return the dictionary of the not-found failure, which differs
    from the one of the initialisation failure; no exception leaves the
    call. *)
Theorem trabalhador_nao_encontrado id_trabalhador top_n st :
  is_ndarray (matriz_similaridade_global (apos_guarda fit cos st)) = true ->
  Forall (fun t : dict =>
            exists v, t !! "id" = Some v
                      /\ py_eq_str v id_trabalhador = false)
    (trabalhadores st) ->
  fst (encontrar_matches_para_trabalhador fit cos id_trabalhador top_n st)
  = inr (DictErro (erro_nao_encontrado id_trabalhador))
  /\ erro_nao_encontrado id_trabalhador <> erro_falha_inicializar.
Proof.
  intros Hm Hts. split; [|apply erro_nao_encontrado_distinto].
  rewrite encontrar_desdobra. cbv zeta.
  destruct (matriz_similaridade_global (apos_guarda fit cos st));
    try discriminate.
  destruct (apos_guarda_listas fit cos st) as [-> _].
  rewrite (indice_trabalhador_ausente _ _ 0 Hts). reflexivity.
Qed.

Lemma encontrar_sem_excecao id_trabalhador top_n st :
  forallb (tem_chaves ["id"]) (trabalhadores st) = true ->
  forallb (tem_chaves ["id"; "titulo"; "empresa"]) (vagas st) = true ->
  exists r,
    fst (encontrar_matches_para_trabalhador fit cos id_trabalhador top_n st)
    = inr r.
Proof.
  intros Ht Hv. rewrite encontrar_desdobra. cbv zeta.
  destruct (apos_guarda_listas fit cos st) as [Et Ev].
  set (st1 := apos_guarda fit cos st) in *.
  destruct (matriz_similaridade_global st1) as [|m|]; simpl; eauto.
  rewrite <- Et in Ht. rewrite <- Ev in Hv.
  destruct (indice_trabalhador_sem_excecao id_trabalhador
              (trabalhadores st1) 0 Ht) as [[i|] ->]; simpl; eauto.
  destruct (shape0 m <=? i)%nat eqn:Ei; simpl; eauto.
  apply Nat.leb_gt in Ei.
  destruct (getitem_dentro m i Ei) as [[x|linha] ->]; simpl; eauto.
  destruct (percorrer_sem_excecao
              (slice_to top_n (sorted_desc (enumerate linha))) [] st1 Hv)
    as [res Hres].
  destruct (percorrer _ _ st1) as [[e|res'] st2]; simpl in *; eauto.
  discriminate Hres.
Qed.

(** C9. With the worker and job lists of the module, for every worker id,
    every integer [top_n] and every content of the cache, the call ends
    with a returned value, a list of matches or an error dictionary, and
    never with an exception. *)
Theorem encontrar_nunca_levanta id_trabalhador top_n st :
  trabalhadores st = trabalhadores_iniciais ->
  vagas st = vagas_iniciais ->
  exists r,
    fst (encontrar_matches_para_trabalhador fit cos id_trabalhador top_n st)
    = inr r.
Proof.
  intros Ht Hv. apply encontrar_sem_excecao.
  - rewrite Ht. vm_compute. reflexivity.
  - rewrite Hv. vm_compute. reflexivity.
Qed.

(** C10. When the cache holds an array at the call, the call leaves the
    worker list, the job list, the vectorizer, the TF-IDF matrix, the
    similarity matrix and the document lists as they were, and the
    initialiser does not run. *)
Theorem consulta_preserva_globais id_trabalhador top_n st :
  is_ndarray (matriz_similaridade_global st) = true ->
  let st' :=
    snd (encontrar_matches_para_trabalhador fit cos id_trabalhador top_n st) in
  trabalhadores st' = trabalhadores st
  /\ vagas st' = vagas st
  /\ vectorizer st' = vectorizer st
  /\ tfidf_matrix_global st' = tfidf_matrix_global st
  /\ matriz_similaridade_global st' = matriz_similaridade_global st
  /\ docs_trabalhadores_global st' = docs_trabalhadores_global st
  /\ docs_vagas_global st' = docs_vagas_global st
  /\ inicializacoes (stdout st') = inicializacoes (stdout st).
Proof.
  intros Hm. cbv zeta.
  destruct (matriz_similaridade_global st) as [|m|] eqn:E; try discriminate.
  destruct (encontrar_estado fit cos id_trabalhador top_n st) as [G C].
  rewrite (apos_guarda_valida fit cos st m E) in G, C.
  destruct G as (?&?&?&?&?&?&?). rewrite <- E. repeat split; assumption.
Qed.

End Falhas.

Lemma reinicializacao_unica_witness :
  fst (encontrar_matches_para_trabalhador Exemplo.fit Exemplo.cos "t1" 3
         Exemplo.sem_matriz)
  = inr (DictErro erro_falha_inicializar)
  /\ inicializacoes
       (stdout (snd (encontrar_matches_para_trabalhador Exemplo.fit_ok
                       Exemplo.cos_ok "t1" 3 Exemplo.sem_matriz))) = 1%nat.
Proof.
  split.
  - destruct (reinicializacao_unica Exemplo.fit Exemplo.cos "t1" 3
                Exemplo.sem_matriz eq_refl) as (_ & _ & Hf).
    rewrite Hf by (vm_compute; reflexivity). reflexivity.
  - destruct (reinicializacao_unica Exemplo.fit_ok Exemplo.cos_ok "t1" 3
                Exemplo.sem_matriz eq_refl) as (_ & Hc & _).
    rewrite Hc. reflexivity.
Defined.

Lemma trabalhador_nao_encontrado_witness :
  fst (encontrar_matches_para_trabalhador Exemplo.fit_ok Exemplo.cos_ok
         "nonexistent-id" 3 Exemplo.sem_matriz)
  = inr (DictErro (erro_nao_encontrado "nonexistent-id")).
Proof.
  apply (trabalhador_nao_encontrado Exemplo.fit_ok Exemplo.cos_ok
           "nonexistent-id" 3 Exemplo.sem_matriz).
  - vm_compute. reflexivity.
  - repeat constructor; eexists; split; vm_compute; reflexivity.
Defined.

(** C4 fails as stated.  With the workers of the module, an empty job list
    and a cache that was never filled, the id ["nonexistent-id"] equals the
    id of no record; the guard re-initialises, the job list being empty
    leaves the cache empty, and the call returns the dictionary of the
    initialisation failure before the worker is looked up. *)
Lemma nao_encontrado_contraexemplo :
  Forall (fun t : dict =>
            exists v, t !! "id" = Some v
                      /\ py_eq_str v "nonexistent-id" = false)
    (trabalhadores Exemplo.sem_vagas_nem_matriz)
  /\ fst (encontrar_matches_para_trabalhador Exemplo.fit_ok Exemplo.cos_ok
            "nonexistent-id" 3 Exemplo.sem_vagas_nem_matriz)
     = inr (DictErro erro_falha_inicializar)
  /\ DictErro erro_falha_inicializar
     <> DictErro (erro_nao_encontrado "nonexistent-id").
Proof.
  split; [|split].
  - repeat constructor; eexists; split; vm_compute; reflexivity.
  - vm_compute. reflexivity.
  - intros H.
    apply (f_equal (fun r => match r with
                             | DictErro e => Str.first e
                             | Lista _ => None
                             end)) in H.
    vm_compute in H. discriminate H.
Qed.

Lemma encontrar_nunca_levanta_witness :
  exists r,
    fst (encontrar_matches_para_trabalhador Exemplo.fit_ok Exemplo.cos_ok
           "t1" (-2) Exemplo.sem_matriz) = inr r.
Proof.
  apply (encontrar_nunca_levanta Exemplo.fit_ok Exemplo.cos_ok "t1" (-2)
           Exemplo.sem_matriz); reflexivity.
Defined.

Lemma consulta_preserva_globais_witness :
  matriz_similaridade_global
    (snd (encontrar_matches_para_trabalhador Exemplo.fit_ok Exemplo.cos_ok
            "t1" 2 (Exemplo.com_linha [Fin (1 # 4); Fin (1 # 2); Fin 0])))
  = Matriz (Arr2 [[Fin (1 # 4); Fin (1 # 2); Fin 0]]).
Proof.
  apply (consulta_preserva_globais Exemplo.fit_ok Exemplo.cos_ok "t1" 2
           (Exemplo.com_linha [Fin (1 # 4); Fin (1 # 2); Fin 0])).
  reflexivity.
Defined.

(** ** Cosine similarity of non-negative vectors *)

Module CossenoFacts.
Import Cosseno.
Local Open Scope R_scope.

Lemma dot_nonneg a b : nao_negativo a -> nao_negativo b -> 0 <= dot a b.
Proof.
  intros Ha. revert b. induction Ha as [|x a Hx Ha IH]; intros b Hb; simpl.
  - lra.
  - destruct Hb as [|y b Hy Hb]; [lra|].
    specialize (IH b Hb). nra.
Qed.

Lemma dot_self_nonneg a : 0 <= dot a a.
Proof. induction a as [|x a IH]; simpl; [lra | nra]. Qed.

Lemma cauchy_schwarz a b : dot a b * dot a b <= dot a a * dot b b.
Proof.
  revert b. induction a as [|x a IH]; intros b; simpl.
  - pose proof (dot_self_nonneg b). nra.
  - destruct b as [|y b]; simpl.
    + nra.
    + specialize (IH b).
      pose proof (dot_self_nonneg a) as HA.
      pose proof (dot_self_nonneg b) as HB.
      set (D := dot a b) in *. set (A := dot a a) in *. set (B := dot b b) in *.
      pose proof (Rle_0_sqr (x * x * B - y * y * A)) as H1. unfold Rsqr in H1.
      pose proof (Rle_0_sqr x) as Hx. unfold Rsqr in Hx.
      pose proof (Rle_0_sqr y) as Hy. unfold Rsqr in Hy.
      assert (H2 : 0 <= x * x * B + y * y * A).
      { apply Rplus_le_le_0_compat; apply Rmult_le_pos; assumption. }
      assert (H3 : 2 * (x * y * D) <= x * x * B + y * y * A).
      { destruct (Rle_or_lt (2 * (x * y * D)) (x * x * B + y * y * A))
          as [H|H]; [exact H|exfalso].
        assert (H4 : (x * x * B + y * y * A) * (x * x * B + y * y * A)
                     < (2 * (x * y * D)) * (2 * (x * y * D))) by nra.
        assert (H5 : (x * y) * (x * y) * (D * D) <= (x * y) * (x * y) * (A * B)).
        { apply Rmult_le_compat_l; [nra | exact IH]. }
        nra. }
      nra.
Qed.

Lemma dot_le_norms a b : nao_negativo a -> nao_negativo b ->
  dot a b <= norm a * norm b.
Proof.
  intros Ha Hb. unfold norm.
  rewrite <- sqrt_mult by apply dot_self_nonneg.
  pose proof (dot_nonneg a b Ha Hb) as H0.
  rewrite <- (sqrt_square (dot a b)) at 1 by exact H0.
  apply sqrt_le_1_alt. apply cauchy_schwarz.
Qed.

Lemma norm_nonneg a : 0 <= norm a.
Proof. apply sqrt_pos. Qed.

Lemma cosseno_intervalo a b :
  nao_negativo a -> nao_negativo b -> 0 <= cosseno a b <= 1.
Proof.
  intros Ha Hb. unfold cosseno.
  destruct (Req_dec_T (norm a) 0) as [|Na]; [lra|].
  destruct (Req_dec_T (norm b) 0) as [|Nb]; [lra|].
  pose proof (norm_nonneg a). pose proof (norm_nonneg b).
  assert (Hp : 0 < norm a * norm b) by (apply Rmult_lt_0_compat; lra).
  pose proof (dot_nonneg a b Ha Hb). pose proof (dot_le_norms a b Ha Hb).
  split.
  - apply Rmult_le_pos; [assumption|].
    left. apply Rinv_0_lt_compat. exact Hp.
  - apply (Rmult_le_reg_r (norm a * norm b)); [exact Hp|].
    unfold Rdiv. rewrite Rmult_assoc, Rinv_l by lra. lra.
Qed.

Lemma cosseno_zero a b : norm a = 0 \/ norm b = 0 -> cosseno a b = 0.
Proof.
  unfold cosseno. intros [H|H].
  - destruct (Req_dec_T (norm a) 0); [reflexivity | contradiction].
  - destruct (Req_dec_T (norm a) 0); [reflexivity|].
    destruct (Req_dec_T (norm b) 0); [reflexivity | contradiction].
Qed.

End CossenoFacts.

(** ** Signs in binary64 *)

Lemma ltb_zero x : PrimFloat.ltb x 0 = B64.negativo (Prim2SF x).
Proof.
  rewrite ltb_spec. change (Prim2SF 0) with (S754_zero false).
  destruct (Prim2SF x) as [s|s| |s m e]; try destruct s; reflexivity.
Qed.

Lemma sinal_negativo f : B64.sinal f = false -> B64.negativo f = false.
Proof. destruct f; simpl; auto. Qed.

Lemma sinal_round prec emax m e l :
  B64.sinal (binary_round_aux prec emax false m e l) = false.
Proof.
  unfold binary_round_aux.
  destruct (shr_fexp prec emax m e l) as [mrs e'].
  destruct (shr_fexp prec emax _ e' loc_Exact) as [mrs' e''].
  destruct (shr_m mrs'); [reflexivity| |reflexivity].
  destruct (e'' <=? emax - prec)%Z; reflexivity.
Qed.

Lemma negativo_mul x y :
  B64.negativo x = false -> B64.negativo y = false ->
  B64.negativo (SFmul prec emax x y) = false.
Proof.
  destruct x as [sx|sx| |sx mx ex], y as [sy|sy| |sy my ey]; simpl;
    intros Hx Hy; subst; simpl; try reflexivity.
  apply sinal_negativo, sinal_round.
Qed.

Lemma sinal_mul x y :
  B64.sinal x = false -> B64.sinal y = false ->
  B64.sinal (SFmul prec emax x y) = false.
Proof.
  destruct x as [sx|sx| |sx mx ex], y as [sy|sy| |sy my ey]; simpl;
    intros Hx Hy; subst; simpl; try reflexivity.
  apply sinal_round.
Qed.

(** An accumulator whose sign bit is clear keeps it clear when a product
    that is not below zero is added: [+0 + -0] is [+0]. *)
Lemma sinal_add x y :
  B64.sinal x = false -> B64.negativo y = false ->
  B64.sinal (SFadd prec emax x y) = false.
Proof.
  destruct x as [sx|sx| |sx mx ex], y as [sy|sy| |sy my ey]; simpl;
    intros Hx Hy; subst; simpl; try reflexivity;
    try (destruct sy; reflexivity).
  unfold binary_normalize.
  destruct (shl_align mx ex (ex `min` ey))%Z as [m1 e1].
  destruct (shl_align my ey (ex `min` ey))%Z as [m2 e2].
  simpl. unfold binary_round.
  destruct (shl_align _ _ _) as [mz ez]. apply sinal_round.
Qed.

Lemma sinal_div x y :
  B64.sinal x = false -> B64.sinal y = false ->
  B64.sinal (SFdiv prec emax x y) = false.
Proof.
  destruct x as [sx|sx| |sx mx ex], y as [sy|sy| |sy my ey]; simpl;
    intros Hx Hy; subst; simpl; try reflexivity.
  destruct (SFdiv_core_binary _ _ _ _ _ _) as [[mz ez] lz].
  apply sinal_round.
Qed.

Lemma sinal_sqrt x :
  B64.sinal x = false -> B64.sinal (SFsqrt prec emax x) = false.
Proof.
  destruct x as [sx|sx| |sx mx ex]; simpl; intros Hx; subst; try reflexivity.
  destruct (SFsqrt_core_binary _ _ _ _) as [[mz ez] lz].
  apply sinal_round.
Qed.

Lemma sinal_soma a : forall acc b,
  B64.sinal (Prim2SF acc) = false ->
  Forall (fun x => PrimFloat.ltb x 0 = false) a ->
  Forall (fun x => PrimFloat.ltb x 0 = false) b ->
  B64.sinal (Prim2SF (B64.soma acc a b)) = false.
Proof.
  induction a as [|x a IH]; intros acc b Hacc Ha Hb; simpl; [exact Hacc|].
  destruct b as [|y b]; [exact Hacc|].
  inversion Ha; subst. inversion Hb; subst.
  apply IH; try assumption.
  rewrite add_spec, mul_spec.
  apply sinal_add; [assumption|].
  apply negativo_mul; rewrite <- ltb_zero; assumption.
Qed.

Lemma cosseno_nao_negativo a b :
  Forall (fun x => PrimFloat.ltb x 0 = false) a ->
  Forall (fun x => PrimFloat.ltb x 0 = false) b ->
  PrimFloat.ltb (B64.cosseno a b) 0 = false.
Proof.
  intros Ha Hb. unfold B64.cosseno.
  destruct (_ || _); [reflexivity|].
  rewrite ltb_zero, div_spec, mul_spec. unfold B64.norm.
  rewrite !sqrt_spec.
  apply sinal_negativo, sinal_div.
  - apply sinal_soma; [reflexivity|assumption..].
  - apply sinal_mul; apply sinal_sqrt, sinal_soma;
      solve [reflexivity | assumption].
Qed.

Lemma real_nao_negativo x :
  PrimFloat.ltb x 0 = false -> (0 <= B64.real x)%R.
Proof.
  rewrite ltb_zero. unfold B64.real.
  destruct (Prim2SF x) as [s|s| |s m e]; simpl; intros H; try lra.
  subst. apply Rmult_le_pos; [apply IZR_le; lia|].
  apply powerRZ_le. lra.
Qed.

(** ** Claim on the similarity matrix *)

Section Similaridade.
Context {V : Type}.
Variable fit : V -> list string -> V * resultado (list (list float)).

(** What the matcher relies on from [fit_transform]: one row per
    document, and TF-IDF weights that are not below zero. *)
Hypothesis fit_linhas :
  forall v docs v' M, fit v docs = (v', Ok M) -> length M = length docs.
Hypothesis fit_nao_negativo :
  forall v docs v' M, fit v docs = (v', Ok M) ->
    Forall (Forall (fun x => PrimFloat.ltb x 0 = false)) M.

Local Abbreviation inicializar :=
  (inicializar_matcher fit B64.cosine_similarity).

(** C8, as the code has it.  After an initialisation that ends with the
    success message, the cache holds a two-dimensional array of binary64
    numbers with one row per worker and one column per job; its entry at
    row [i] and column [j] is the cosine, evaluated in binary64, of the
    vector of the document of worker [i] with the vector of the document
    of job [j], the vectors being the rows of the fitted matrix in the
    order workers first, then jobs.  The entry is 0 when either vector has
    zero magnitude and it is never below 0.  The cosine of the two vectors
    in exact arithmetic lies between 0 and 1; the entry itself, which is
    rounded, is not bounded by 1 here. *)
Theorem matriz_apos_inicializacao (st : estado V float) :
  head (stdout (inicializar st)) = Some msg_sucesso ->
  exists v' M S,
    fit (vectorizer st)
      (map (fun t => criar_documento t (PStr "trabalhador")) (trabalhadores st)
       ++ map (fun v => criar_documento v (PStr "vaga")) (vagas st))%list
    = (v', Ok M)
    /\ matriz_similaridade_global (inicializar st) = Matriz (Arr2 S)
    /\ length S = length (trabalhadores st)
    /\ Forall (fun linha => length linha = length (vagas st)) S
    /\ forall i j linha x,
         S !! i = Some linha -> linha !! j = Some x ->
         exists a b,
           M !! i = Some a
           /\ M !! (length (trabalhadores st) + j)%nat = Some b
           /\ x = B64.cosseno a b
           /\ (PrimFloat.eqb (B64.norm a) 0 = true
               \/ PrimFloat.eqb (B64.norm b) 0 = true -> x = 0%float)
           /\ PrimFloat.ltb x 0 = false
           /\ (0 <= Cosseno.cosseno (map B64.real a) (map B64.real b) <= 1)%R.
Proof.
  unfold inicializar_matcher. cbv zeta.
  simpl docs_trabalhadores_global. simpl docs_vagas_global. simpl vectorizer.
  set (dt := map (fun t => criar_documento t (PStr "trabalhador"))
               (trabalhadores st)).
  set (dv := map (fun v => criar_documento v (PStr "vaga")) (vagas st)).
  destruct (vazia dt || vazia dv).
  { simpl. intros H.
    apply (f_equal (fun o => match o with Some s => Str.first s | None => None end)) in H.
    vm_compute in H. discriminate H. }
  destruct (fit (vectorizer st) (dt ++ dv)%list) as [v' [M|e]] eqn:Ef.
  2:{ simpl. intros H.
      apply (f_equal (fun o => match o with Some s => Str.first s | None => None end)) in H.
      vm_compute in H. discriminate H. }
  unfold B64.cosine_similarity. simpl. intros _.
  pose proof (fit_linhas _ _ _ _ Ef) as HL.
  pose proof (fit_nao_negativo _ _ _ _ Ef) as HN.
  rewrite length_app in HL.
  assert (Edt : length dt = length (trabalhadores st))
    by (unfold dt; apply length_map).
  assert (Edv : length dv = length (vagas st))
    by (unfold dv; apply length_map).
  exists v', M, (map (fun x => map (B64.cosseno x) (skipn (length dt) M))
                   (firstn (length dt) M)).
  split; [reflexivity|]. split; [reflexivity|]. split; [|split].
  - rewrite length_map, length_firstn. lia.
  - apply List.Forall_forall. intros linha Hin.
    apply in_map_iff in Hin as (a & <- & _).
    rewrite length_map, length_skipn. lia.
  - intros i j linha x Hi Hj.
    rewrite list_lookup_fmap in Hi.
    destruct (firstn (length dt) M !! i) as [a|] eqn:Ea; [|discriminate].
    simpl in Hi. injection Hi as <-.
    rewrite list_lookup_fmap in Hj.
    destruct (skipn (length dt) M !! j) as [b|] eqn:Eb; [|discriminate].
    simpl in Hj. injection Hj as <-.
    apply lookup_take_Some in Ea as [Ea _].
    rewrite lookup_drop in Eb.
    assert (Hin : forall k c, M !! k = Some c ->
                    Forall (fun y => PrimFloat.ltb y 0 = false) c).
    { intros k c Hc. rewrite List.Forall_forall in HN. apply HN.
      apply list_elem_of_In. eapply list_elem_of_lookup_2; exact Hc. }
    pose proof (Hin _ _ Ea) as Ha. pose proof (Hin _ _ Eb) as Hb.
    exists a, b. rewrite <- Edt.
    split; [exact Ea|]. split; [exact Eb|]. split; [reflexivity|].
    split; [|split].
    + unfold B64.cosseno. intros [H|H]; rewrite H; [reflexivity|].
      rewrite orb_true_r. reflexivity.
    + apply cosseno_nao_negativo; assumption.
    + apply CossenoFacts.cosseno_intervalo; unfold nao_negativo;
        apply List.Forall_forall; intros r Hr;
        apply in_map_iff in Hr as (y & <- & Hy);
        apply real_nao_negativo;
        [rewrite List.Forall_forall in Ha; apply Ha, Hy
        |rewrite List.Forall_forall in Hb; apply Hb, Hy].
Qed.

End Similaridade.

Lemma fit_tres_linhas v docs v' M :
  Exemplo.fit_tres v docs = (v', Ok M) -> length M = length docs.
Proof. intros [= _ <-]. apply length_map. Qed.

Lemma fit_tres_nao_negativo v docs v' M :
  Exemplo.fit_tres v docs = (v', Ok M) ->
  Forall (Forall (fun x => PrimFloat.ltb x 0 = false)) M.
Proof.
  intros [= _ <-]. apply List.Forall_forall. intros a Ha.
  apply in_map_iff in Ha as (d & <- & _).
  repeat constructor.
Qed.

Lemma matriz_apos_inicializacao_witness :
  exists S,
    matriz_similaridade_global
      (inicializar_matcher Exemplo.fit_tres B64.cosine_similarity
         (estado_inicial tt)) = Matriz (Arr2 S)
    /\ length S = 4%nat
    /\ Forall (fun linha => length linha = 4%nat) S.
Proof.
  destruct (matriz_apos_inicializacao Exemplo.fit_tres fit_tres_linhas
              fit_tres_nao_negativo (estado_inicial tt) eq_refl)
    as (v' & M & S & _ & Hm & Hl & Hc & _).
  exists S. split; [exact Hm|]. split; [exact Hl | exact Hc].
Defined.

(** C8 fails as stated.  One worker and one job have the same document of
    three terms, so that both rows of the fitted matrix are
    [[1/sqrt 3, 1/sqrt 3, 1/sqrt 3]] in binary64.  The initialisation
    succeeds and the only entry of the cached matrix is
    1.0000000000000002, which is greater than 1.  Scaling the two vectors
    to unit length before multiplying them gives the same number. *)
Lemma matriz_contraexemplo :
  map (fun t => criar_documento t (PStr "trabalhador"))
    (trabalhadores Exemplo.documentos_iguais) = ["python java sql"]
  /\ map (fun v => criar_documento v (PStr "vaga"))
       (vagas Exemplo.documentos_iguais) = ["python java sql"]
  /\ head (stdout (inicializar_matcher Exemplo.fit_tres B64.cosine_similarity
                     Exemplo.documentos_iguais)) = Some msg_sucesso
  /\ matriz_similaridade_global
       (inicializar_matcher Exemplo.fit_tres B64.cosine_similarity
          Exemplo.documentos_iguais)
     = Matriz (Arr2 [[0x1.0000000000001p+0%float]])
  /\ PrimFloat.leb 0x1.0000000000001p+0 1 = false
  /\ B64.cosseno_normalizado [Exemplo.peso3; Exemplo.peso3; Exemplo.peso3]
       [Exemplo.peso3; Exemplo.peso3; Exemplo.peso3]
     = 0x1.0000000000001p+0%float.
Proof.
  repeat split; vm_compute; reflexivity.
Qed.


(** * Further properties of the text functions *)

Lemma word_lower_char c : Latin1.is_word (Latin1.lower_char c) = Latin1.is_word c.
Proof. by_cases_on_char c. Qed.

Lemma keep_lower s :
  keep Latin1.is_word (Str.lower s) = Str.lower (keep Latin1.is_word s).
Proof.
  induction s as [|c t IH]; [reflexivity|].
  simpl. rewrite word_lower_char.
  destruct (Latin1.is_word c); simpl; rewrite IH; reflexivity.
Qed.

Lemma keep_re_sub cls s :
  (forall c, cls c = true -> Latin1.is_word c = false) ->
  keep Latin1.is_word (Str.re_sub_plus cls " " s) = keep Latin1.is_word s.
Proof.
  intros Hcls. induction s as [|c t IH]; [reflexivity|].
  destruct (cls c) eqn:Ec.
  - destruct t as [|d t'].
    + simpl. rewrite Ec. simpl. rewrite (Hcls c Ec). reflexivity.
    + destruct (cls d) eqn:Ed.
      * rewrite re_sub_plus_in by assumption. rewrite IH.
        simpl. rewrite (Hcls c Ec). reflexivity.
      * rewrite re_sub_plus_end by assumption.
        change (keep Latin1.is_word
                  (" " +:+ Str.re_sub_plus cls " " (String d t')))
          with (keep Latin1.is_word (Str.re_sub_plus cls " " (String d t'))).
        rewrite IH. simpl. rewrite (Hcls c Ec). reflexivity.
  - rewrite re_sub_plus_out by assumption. simpl. rewrite IH. reflexivity.
Qed.

Lemma keep_skip s :
  keep Latin1.is_word (Str.skip Latin1.is_space s) = keep Latin1.is_word s.
Proof.
  induction s as [|c t IH]; [reflexivity|].
  simpl. destruct (Latin1.is_space c) eqn:Ec; [|reflexivity].
  rewrite (space_not_word c Ec). exact IH.
Qed.

Lemma keep_all_space s :
  Str.all Latin1.is_space s = true -> keep Latin1.is_word s = EmptyString.
Proof.
  induction s as [|c t IH]; [reflexivity|].
  simpl. intros H. apply andb_prop in H as [Hc Ht].
  rewrite (space_not_word c Hc). auto.
Qed.

Lemma keep_rstrip s :
  keep Latin1.is_word (Str.rstrip s) = keep Latin1.is_word s.
Proof.
  induction s as [|c t IH]; [reflexivity|].
  rewrite rstrip_cons.
  destruct (Str.all Latin1.is_space t) eqn:Ea.
  - simpl. rewrite (keep_all_space t Ea).
    destruct (Latin1.is_space c) eqn:Ec.
    + rewrite (space_not_word c Ec). reflexivity.
    + simpl. destruct (Latin1.is_word c); reflexivity.
  - simpl. rewrite IH. reflexivity.
Qed.

Lemma nonword_not_word c : Latin1.is_nonword c = true -> Latin1.is_word c = false.
Proof. unfold Latin1.is_nonword. apply negb_true_iff. Qed.

Lemma keep_strip s :
  keep Latin1.is_word (Str.strip s) = keep Latin1.is_word s.
Proof. unfold Str.strip, Str.lstrip. rewrite keep_rstrip. apply keep_skip. Qed.

(** X1. For a text of code points 0 to 255, the range that [string]
    holds and on which [str.lower] maps every character to one character
    of the range, the normaliser keeps every word character of the text,
    lowercased and in order, and adds none: what it changes is only what
    stands between them. *)
Theorem preprocessar_texto_keeps_words (s : string) :
  keep Latin1.is_word (preprocessar_texto (PStr s))
  = Str.lower (keep Latin1.is_word s).
Proof.
  simpl. rewrite keep_strip.
  rewrite (keep_re_sub Latin1.is_space) by exact space_not_word.
  rewrite (keep_re_sub Latin1.is_nonword) by exact nonword_not_word.
  apply keep_lower.
Qed.

Lemma keep_empty_iff s :
  keep Latin1.is_word s = EmptyString <-> Str.all Latin1.is_nonword s = true.
Proof.
  induction s as [|c t IH]; simpl; [tauto|].
  unfold Latin1.is_nonword at 1.
  destruct (Latin1.is_word c); simpl; [split; discriminate | exact IH].
Qed.

Lemma lower_empty_iff s : Str.lower s = EmptyString <-> s = EmptyString.
Proof. destruct s; simpl; split; congruence. Qed.

Lemma canon_first_word s c :
  canon s = true -> Str.first s = Some c -> Latin1.is_space c = false ->
  Latin1.is_word c = true.
Proof.
  destruct s as [|a t]; [discriminate|].
  simpl. intros H [= ->] Hc.
  destruct (Ascii.eqb c " ") eqn:E.
  - apply Ascii.eqb_eq in E. subst c. discriminate Hc.
  - apply andb_prop in H as [H _]. exact H.
Qed.

(** X2. The normalised text is empty exactly when the text has no word
    character. *)
Theorem preprocessar_texto_empty_iff (s : string) :
  preprocessar_texto (PStr s) = EmptyString
  <-> Str.all Latin1.is_nonword s = true.
Proof.
  rewrite <- keep_empty_iff, <- (lower_empty_iff (keep Latin1.is_word s)).
  rewrite <- keep_lower.
  rewrite <- (keep_re_sub Latin1.is_nonword) by exact nonword_not_word.
  rewrite <- (keep_re_sub Latin1.is_space) by exact space_not_word.
  rewrite <- keep_strip.
  change (Str.strip _) with (preprocessar_texto (PStr s)).
  destruct (preprocessar_texto_shape s) as (_ & Hc & Hs & _).
  destruct (preprocessar_texto (PStr s)) as [|c r] eqn:E.
  - simpl. tauto.
  - split; [discriminate|]. intros H. exfalso.
    assert (Hw : Latin1.is_word c = true).
    { eapply canon_first_word; [exact Hc | reflexivity |].
      apply Hs. reflexivity. }
    simpl in H. rewrite Hw in H. discriminate H.
Qed.

Lemma length_lower s : String.length (Str.lower s) = String.length s.
Proof. induction s as [|c t IH]; simpl; [reflexivity | rewrite IH; reflexivity]. Qed.

Lemma length_re_sub cls s :
  (String.length (Str.re_sub_plus cls " " s) <= String.length s)%nat.
Proof.
  induction s as [|c t IH]; [reflexivity|].
  destruct (cls c) eqn:Ec.
  - destruct t as [|d t'].
    + simpl. rewrite Ec. simpl. lia.
    + destruct (cls d) eqn:Ed.
      * rewrite re_sub_plus_in by assumption. simpl in *. lia.
      * rewrite re_sub_plus_end by assumption.
        change (String.length (" " +:+ ?x)) with (S (String.length x)).
        simpl in *. lia.
  - rewrite re_sub_plus_out by assumption. simpl. lia.
Qed.

Lemma length_skip cls s : (String.length (Str.skip cls s) <= String.length s)%nat.
Proof.
  induction s as [|c t IH]; [reflexivity|].
  simpl. destruct (cls c); simpl; lia.
Qed.

Lemma length_rstrip s : (String.length (Str.rstrip s) <= String.length s)%nat.
Proof.
  induction s as [|c t IH]; [reflexivity|].
  rewrite rstrip_cons. destruct (Str.all Latin1.is_space t).
  - destruct (Latin1.is_space c); simpl; lia.
  - simpl. lia.
Qed.

(** X3. For a value that is not a string, or a string of code points 0
    to 255, the normalised text is made of word characters and single
    spaces, each space followed by a word character; it has no whitespace
    at either end; [str.lower] leaves it unchanged; and it is never longer
    than the text it comes from, [str.lower] keeping the length of a text
    of that range. *)
Theorem preprocessar_texto_normal_form (v : pyval) :
  canon (preprocessar_texto v) = true
  /\ stripped (preprocessar_texto v)
  /\ Str.lower (preprocessar_texto v) = preprocessar_texto v
  /\ (String.length (preprocessar_texto v)
      <= match v with PStr s => String.length s | _ => 0 end)%nat.
Proof.
  destruct v as [| | |s];
    try (repeat split; try reflexivity; try discriminate).
  - apply (preprocessar_texto_shape s).
  - apply (preprocessar_texto_shape s).
  - apply (preprocessar_texto_shape s).
  - apply lower_id. apply (preprocessar_texto_shape s).
  - simpl. unfold Str.strip, Str.lstrip.
    pose proof (length_rstrip
                  (Str.skip Latin1.is_space
                     (Str.re_sub_plus Latin1.is_space " "
                        (Str.re_sub_plus Latin1.is_nonword " " (Str.lower s))))).
    pose proof (length_skip Latin1.is_space
                  (Str.re_sub_plus Latin1.is_space " "
                     (Str.re_sub_plus Latin1.is_nonword " " (Str.lower s)))).
    pose proof (length_re_sub Latin1.is_space
                  (Str.re_sub_plus Latin1.is_nonword " " (Str.lower s))).
    pose proof (length_re_sub Latin1.is_nonword (Str.lower s)).
    pose proof (length_lower s). lia.
Qed.

(** ** Joining the two fields *)

Lemma append_nil_l b : EmptyString +:+ b = b.
Proof. reflexivity. Qed.

Lemma append_cons c t b : String c t +:+ b = String c (t +:+ b).
Proof. reflexivity. Qed.

Lemma last_app a b :
  b <> EmptyString -> Str.last (a +:+ b) = Str.last b.
Proof.
  intros Hb. induction a as [|c t IH]; [reflexivity|].
  rewrite append_cons.
  destruct (t +:+ b) as [|d r] eqn:E.
  - destruct t; [rewrite append_nil_l in E; congruence|].
    rewrite append_cons in E. discriminate E.
  - rewrite <- IH. reflexivity.
Qed.

Lemma all_app p a b : Str.all p (a +:+ b) = Str.all p a && Str.all p b.
Proof.
  induction a as [|c t IH]; [reflexivity|].
  rewrite append_cons. simpl. rewrite IH. apply andb_assoc.
Qed.

Lemma rstrip_snoc_space s : Str.rstrip (s +:+ " ") = Str.rstrip s.
Proof.
  induction s as [|c t IH]; [reflexivity|].
  change (String c t +:+ " ") with (String c (t +:+ " ")).
  rewrite !rstrip_cons, all_app, IH. simpl. rewrite andb_true_r. reflexivity.
Qed.

Lemma strip_snoc_space s : stripped s -> Str.strip (s +:+ " ") = s.
Proof.
  intros [Hf Hl]. unfold Str.strip, Str.lstrip.
  destruct s as [|c t]; [reflexivity|].
  rewrite skip_id.
  - rewrite rstrip_snoc_space. apply rstrip_id. exact Hl.
  - intros d Hd. apply Hf. exact Hd.
Qed.

Lemma stripped_join a b :
  stripped a -> stripped b -> a <> EmptyString -> b <> EmptyString ->
  stripped (a +:+ " " +:+ b).
Proof.
  intros [Hfa _] [_ Hlb] Ha Hb. split.
  - destruct a as [|c t]; [congruence|]. exact Hfa.
  - intros c. rewrite last_app by discriminate.
    change (" " +:+ b) with (String " " b).
    destruct b as [|d t]; [congruence|]. exact (Hlb c).
Qed.

Lemma strip_join a b :
  stripped a -> stripped b -> Str.strip (a +:+ " " +:+ b) = juntar a b.
Proof.
  intros Ha Hb. destruct a as [|c t].
  - change (Str.strip (String " " b) = b). rewrite strip_space_cons.
    apply strip_id. exact Hb.
  - destruct b as [|d u].
    + unfold juntar. change (" " +:+ "") with " ".
      apply strip_snoc_space. exact Ha.
    + unfold juntar. apply strip_id. apply stripped_join; auto; discriminate.
Qed.

(** X4. The document of a worker is its normalised skills and its
    normalised experience joined by exactly one space, and the one that is
    not empty when the other is; the document of a job is built the same way
    from its required skills and its description.  A field whose key is
    absent from the record counts as an empty text. *)
Theorem criar_documento_join (item : dict) (k : string) :
  criar_documento item (PStr "trabalhador")
  = juntar (preprocessar_texto (dict_get item "habilidades"))
      (preprocessar_texto (dict_get item "experiencia"))
  /\ criar_documento item (PStr "vaga")
     = juntar (preprocessar_texto (dict_get item "requisitos_habilidades"))
         (preprocessar_texto (dict_get item "descricao"))
  /\ preprocessar_texto (dict_get (delete k item) k) = "".
Proof.
  split; [|split].
  - apply strip_join; apply preprocessar_texto_stripped.
  - apply strip_join; apply preprocessar_texto_stripped.
  - unfold dict_get. rewrite lookup_delete_eq. reflexivity.
Qed.

Lemma canon_cons2 c d x :
  canon (String c (String d x))
  = (if Ascii.eqb c " " then Latin1.is_word d else Latin1.is_word c)
    && canon (String d x).
Proof.
  change (canon (String c (String d x)))
    with (if Ascii.eqb c " "
          then Latin1.is_word d && canon (String d x)
          else Latin1.is_word c && canon (String d x)).
  destruct (Ascii.eqb c " "); reflexivity.
Qed.

Lemma canon_app a b :
  canon a = true -> canon b = true ->
  (forall c, Str.last a = Some c -> Latin1.is_space c = false) ->
  canon (a +:+ b) = true.
Proof.
  induction a as [|c t IH]; intros Ha Hb Hl; [exact Hb|].
  rewrite append_cons.
  pose proof (canon_tail _ _ Ha) as Ht.
  destruct t as [|d t'].
  - rewrite append_nil_l. simpl in Ha.
    destruct (Ascii.eqb c " ") eqn:E.
    + apply Ascii.eqb_eq in E. subst c.
      specialize (Hl " "%char eq_refl). discriminate Hl.
    + apply andb_prop in Ha as [Hc _].
      destruct b as [|d u]; [simpl; rewrite E, Hc; reflexivity|].
      rewrite canon_cons2, E, Hc, Hb. reflexivity.
  - assert (IH' : canon (String d t' +:+ b) = true).
    { apply IH; [exact Ht | exact Hb |]. intros x Hx. apply Hl. exact Hx. }
    rewrite append_cons in *. rewrite canon_cons2 in Ha |- *.
    apply andb_prop in Ha as [Hc _]. rewrite Hc, IH'. reflexivity.
Qed.

Lemma canon_juntar a b :
  canon a = true -> canon b = true -> stripped a -> stripped b ->
  canon (juntar a b) = true.
Proof.
  intros Ha Hb [_ Hla] [Hfb _].
  destruct a as [|c t]; [exact Hb|].
  destruct b as [|d u]; [exact Ha|].
  unfold juntar. apply canon_app; [exact Ha | | exact Hla].
  change (" " +:+ String d u) with (String " " (String d u)).
  assert (Hd : Latin1.is_word d = true).
  { eapply canon_first_word; [exact Hb | reflexivity | apply Hfb; reflexivity]. }
  rewrite canon_cons2, Hb. simpl. rewrite Hd. reflexivity.
Qed.

Lemma lowered_juntar a b :
  lowered a = true -> lowered b = true -> lowered (juntar a b) = true.
Proof.
  intros Ha Hb. destruct a as [|c t]; [exact Hb|].
  destruct b as [|d u]; [exact Ha|].
  unfold juntar, lowered in *. rewrite !all_app, Ha, Hb. reflexivity.
Qed.

Lemma stripped_juntar a b : stripped a -> stripped b -> stripped (juntar a b).
Proof.
  intros Ha Hb. destruct a as [|c t]; [exact Hb|].
  destruct b as [|d u]; [exact Ha|].
  unfold juntar. apply stripped_join; auto; discriminate.
Qed.

Lemma preprocessar_texto_normal (v : pyval) :
  lowered (preprocessar_texto v) = true
  /\ canon (preprocessar_texto v) = true
  /\ stripped (preprocessar_texto v).
Proof.
  destruct v as [| | |s]; try (repeat split; try reflexivity; discriminate).
  apply (preprocessar_texto_shape s).
Qed.

(** X5. Every document is a normalised text: for every record and every
    kind, normalising the document again gives the document back. *)
Theorem criar_documento_normalised (item : dict) (tipo : pyval) :
  preprocessar_texto (PStr (criar_documento item tipo))
  = criar_documento item tipo.
Proof.
  assert (J : forall a b : pyval,
            preprocessar_texto
              (PStr (Str.strip (preprocessar_texto a +:+ " "
                                +:+ preprocessar_texto b)))
            = Str.strip (preprocessar_texto a +:+ " " +:+ preprocessar_texto b)).
  { intros a b.
    destruct (preprocessar_texto_normal a) as (La & Ca & Sa).
    destruct (preprocessar_texto_normal b) as (Lb & Cb & Sb).
    rewrite (strip_join _ _ Sa Sb).
    apply preprocessar_texto_fixed.
    - apply lowered_juntar; assumption.
    - apply canon_juntar; assumption.
    - apply stripped_juntar; assumption. }
  unfold criar_documento.
  destruct (py_eq_str tipo "trabalhador"); [apply J|].
  destruct (py_eq_str tipo "vaga"); [apply J | reflexivity].
Qed.

(** * Further properties of the ranker *)

Lemma indice_trabalhador_from id_trabalhador ts k i :
  indice_trabalhador id_trabalhador ts k = inr (Some i) <->
  (k <= i)%nat
  /\ (exists t v, ts !! (i - k)%nat = Some t /\ t !! "id" = Some v
                  /\ py_eq_str v id_trabalhador = true)
  /\ (forall j t, (j < i - k)%nat -> ts !! j = Some t ->
        exists v, t !! "id" = Some v /\ py_eq_str v id_trabalhador = false).
Proof.
  revert k. induction ts as [|t ts IH]; intros k; simpl.
  - split; [discriminate|]. intros (_ & (t & v & H & _) & _). discriminate H.
  - destruct (t !! "id") as [v|] eqn:Ev.
    + destruct (py_eq_str v id_trabalhador) eqn:Eq.
      * split.
        -- intros [= <-]. split; [lia|]. split.
           ++ exists t, v. replace (k - k)%nat with 0%nat by lia. auto.
           ++ intros j t' Hj. lia.
        -- intros (Hk & _ & Hbefore).
           destruct (Nat.eq_dec i k) as [->|Hne]; [reflexivity|exfalso].
           destruct (Hbefore 0%nat t ltac:(lia) eq_refl) as (v' & Hv' & Hf).
           rewrite Ev in Hv'. injection Hv' as <-. congruence.
      * rewrite IH. split.
        -- intros (Hk & (t' & v' & Hl & Hv' & Ht') & Hbefore).
           split; [lia|]. split.
           ++ exists t', v'. replace (i - k)%nat with (S (i - S k)) by lia. auto.
           ++ intros j u Hj Hu. destruct j as [|j].
              ** injection Hu as <-. eauto.
              ** apply (Hbefore j u); [lia | exact Hu].
        -- intros (Hk & (t' & v' & Hl & Hv' & Ht') & Hbefore).
           destruct (Nat.eq_dec i k) as [->|Hne].
           { replace (k - k)%nat with 0%nat in Hl by lia.
             injection Hl as <-. rewrite Ev in Hv'. injection Hv' as <-.
             congruence. }
           split; [lia|]. split.
           ++ exists t', v'. replace (i - k)%nat with (S (i - S k)) in Hl by lia.
              auto.
           ++ intros j u Hj Hu. apply (Hbefore (S j) u); [lia | exact Hu].
    + split; [discriminate|].
      intros (Hk & (t' & v' & Hl & Hv' & Ht') & Hbefore). exfalso.
      destruct (Nat.eq_dec i k) as [->|Hne].
      * replace (k - k)%nat with 0%nat in Hl by lia.
        injection Hl as <-. congruence.
      * destruct (Hbefore 0%nat t ltac:(lia) eq_refl) as (v & Hv & _).
        congruence.
Qed.

(** X6. The lookup of a worker returns the position of the first record
    whose id equals the requested one: position [i] is returned exactly when
    the record at [i] has that id and every earlier record has an id that
    differs from it.  With duplicate ids the first record wins. *)
Theorem indice_trabalhador_first (id_trabalhador : string) (ts : list dict)
  (i : nat) :
  indice_trabalhador id_trabalhador ts 0 = inr (Some i) <->
  (exists t v, ts !! i = Some t /\ t !! "id" = Some v
               /\ py_eq_str v id_trabalhador = true)
  /\ (forall j t, (j < i)%nat -> ts !! j = Some t ->
        exists v, t !! "id" = Some v /\ py_eq_str v id_trabalhador = false).
Proof.
  rewrite indice_trabalhador_from.
  replace (i - 0)%nat with i by lia.
  split; [intros (_ & H); exact H | intros H; split; [lia | exact H]].
Qed.

Lemma percorrer_nenhum {V : Type} pares acc (st : estado V float64) :
  Forall (fun p : nat * float64 => positivo (snd p) = false) pares ->
  percorrer pares acc st = (inr acc, st).
Proof.
  induction 1 as [|[j s] pares Hp _ IH]; simpl; [reflexivity|].
  unfold positivo in Hp. simpl in Hp. apply negb_false_iff in Hp.
  rewrite Hp. exact IH.
Qed.

Lemma ordenados_length linha :
  length (sorted_desc (enumerate linha)) = length linha.
Proof.
  rewrite (Permutation_length (sorted_desc_perm (enumerate linha))).
  apply enumerate_from_length.
Qed.

Lemma In_ordenados_linha linha p :
  In p (sorted_desc (enumerate linha)) -> In (snd p) linha.
Proof.
  intros H. apply In_ordenados in H.
  apply list_elem_of_In. eapply list_elem_of_lookup_2; exact H.
Qed.

Section RankerEdges.
Context {V : Type}.
Variable fit : V -> list string -> V * resultado (list (list float64)).
Variable cos :
  list (list float64) -> list (list float64)
  -> resultado (list (list float64)).
Implicit Type st : estado V float64.

Lemma encontrar_linha id_trabalhador top_n st rows i linha :
  matriz_similaridade_global st = Matriz (Arr2 rows) ->
  indice_trabalhador id_trabalhador (trabalhadores st) 0 = inr (Some i) ->
  rows !! i = Some linha ->
  encontrar_matches_para_trabalhador fit cos id_trabalhador top_n st
  = match percorrer (slice_to top_n (sorted_desc (enumerate linha))) [] st with
    | (inl e, st') => (inl e, st')
    | (inr l, st') => (inr (Lista l), st')
    end.
Proof.
  intros Em Ei El. rewrite encontrar_desdobra.
  rewrite (apos_guarda_valida fit cos st _ Em). cbv zeta.
  rewrite Em, Ei. simpl shape0.
  pose proof (lookup_lt_Some _ _ _ El) as Hlt.
  destruct (length rows <=? i)%nat eqn:E; [apply Nat.leb_le in E; lia|].
  simpl getitem. rewrite El. reflexivity.
Qed.

(** X7. A worker whose row has no score greater than 0 gets the empty list,
    a successful result and not a failure, for every [top_n]; the call
    prints nothing and leaves the whole state as it was. *)
Theorem sem_matches_lista_vazia id_trabalhador top_n st rows i linha :
  matriz_similaridade_global st = Matriz (Arr2 rows) ->
  indice_trabalhador id_trabalhador (trabalhadores st) 0 = inr (Some i) ->
  rows !! i = Some linha ->
  Forall (fun x => positivo x = false) linha ->
  encontrar_matches_para_trabalhador fit cos id_trabalhador top_n st
  = (inr (Lista []), st).
Proof.
  intros Em Ei El Hz.
  rewrite (encontrar_linha _ _ _ _ _ _ Em Ei El).
  rewrite percorrer_nenhum; [reflexivity|].
  apply List.Forall_forall. intros p Hp.
  apply In_slice_to, In_ordenados_linha in Hp.
  rewrite List.Forall_forall in Hz. apply Hz. exact Hp.
Qed.

(** X8. A [top_n] that is not positive is not rejected.  With [top_n = 0]
    the result is the empty list and nothing is printed; a negative [top_n]
    gives what [len(row) + top_n] gives, or what 0 gives when that sum is
    negative, as the slice [[:top_n]] of Python does. *)
Theorem top_n_nao_positivo id_trabalhador top_n st rows i linha :
  matriz_similaridade_global st = Matriz (Arr2 rows) ->
  indice_trabalhador id_trabalhador (trabalhadores st) 0 = inr (Some i) ->
  rows !! i = Some linha ->
  encontrar_matches_para_trabalhador fit cos id_trabalhador 0 st
  = (inr (Lista []), st)
  /\ ((top_n < 0)%Z ->
      encontrar_matches_para_trabalhador fit cos id_trabalhador top_n st
      = encontrar_matches_para_trabalhador fit cos id_trabalhador
          (Z.max 0 (Z.of_nat (length linha) + top_n)) st).
Proof.
  intros Em Ei El. split.
  - rewrite (encontrar_linha _ _ _ _ _ _ Em Ei El). reflexivity.
  - intros Hneg. rewrite !(encontrar_linha _ _ _ _ _ _ Em Ei El).
    assert (E : slice_to top_n (sorted_desc (enumerate linha))
                = slice_to (Z.max 0 (Z.of_nat (length linha) + top_n))
                    (sorted_desc (enumerate linha))).
    { unfold slice_to. rewrite ordenados_length.
      destruct (top_n <? 0)%Z eqn:E1; [|apply Z.ltb_ge in E1; lia].
      destruct (Z.max 0 (Z.of_nat (length linha) + top_n) <? 0)%Z eqn:E2;
        [apply Z.ltb_lt in E2; lia|].
      f_equal. lia. }
    rewrite E. reflexivity.
Qed.

End RankerEdges.

Lemma NoDup_firstn {A : Type} n (l : list A) : List.NoDup l -> List.NoDup (firstn n l).
Proof.
  revert n. induction l as [|x l IH]; intros [|n] H; simpl; try constructor.
  - inversion H; subst. intros Hin. apply In_firstn in Hin. contradiction.
  - inversion H; subst. auto.
Qed.

Lemma NoDup_map_filter {A B : Type} (g : A -> B) f (l : list A) :
  List.NoDup (map g l) -> List.NoDup (map g (List.filter f l)).
Proof.
  induction l as [|x l IH]; simpl; intros H; [constructor|].
  inversion H as [|? ? Hx Hl]; subst.
  destruct (f x); simpl; [|auto].
  constructor; [|auto].
  intros Hin. apply Hx. apply in_map_iff in Hin as (y & Hy & Hin).
  apply in_map_iff. exists y. split; [exact Hy|].
  apply List.filter_In in Hin. tauto.
Qed.

Lemma enumerate_from_NoDup {A : Type} k (l : list A) :
  List.NoDup (map fst (enumerate_from k l)).
Proof.
  revert k. induction l as [|x l IH]; intros k; simpl; constructor; [|apply IH].
  intros Hin. apply in_map_iff in Hin as (p & Hp & Hin).
  pose proof (enumerate_from_bounds (S k) l) as Hb.
  rewrite List.Forall_forall in Hb. specialize (Hb p Hin). simpl in Hb. lia.
Qed.

Lemma retidos_NoDup vs top_n linha :
  List.NoDup (map fst (retidos vs (slice_to top_n (sorted_desc (enumerate linha))))).
Proof.
  unfold retidos. apply NoDup_map_filter.
  destruct (slice_to_firstn top_n (sorted_desc (enumerate linha)))
    as (n & -> & _).
  rewrite <- firstn_map. apply NoDup_firstn.
  eapply Permutation_NoDup;
    [apply Permutation_map, Permutation_sym, sorted_desc_perm|].
  apply enumerate_from_NoDup.
Qed.

Lemma retidos_positivos vs pares :
  Forall (fun p : nat * float64 => positivo (snd p) = true) (retidos vs pares).
Proof.
  apply List.Forall_forall. intros p Hp. unfold retidos in Hp.
  apply List.filter_In in Hp as [_ Hb]. apply andb_prop in Hb. tauto.
Qed.

Section RankerResults.
Context {V : Type}.
Variable fit : V -> list string -> V * resultado (list (list float64)).
Variable cos :
  list (list float64) -> list (list float64)
  -> resultado (list (list float64)).
Implicit Type st : estado V float64.

(** X9. When [top_n] is at least the number of columns of the row and the
    matrix has no more columns than there are jobs, a returned list has one
    entry for each score of the row that is greater than 0: no matching job
    is left out, also when the row holds NaN. *)
Theorem todos_os_positivos id_trabalhador top_n st rows i linha l :
  matriz_similaridade_global st = Matriz (Arr2 rows) ->
  indice_trabalhador id_trabalhador (trabalhadores st) 0 = inr (Some i) ->
  rows !! i = Some linha ->
  (Z.of_nat (length linha) <= top_n)%Z ->
  (length linha <= length (vagas st))%nat ->
  fst (encontrar_matches_para_trabalhador fit cos id_trabalhador top_n st)
  = inr (Lista l) ->
  length l = length (List.filter positivo linha).
Proof.
  intros Em Ei El Hk Hcols H.
  rewrite (encontrar_linha fit cos _ _ _ _ _ _ Em Ei El) in H.
  destruct (percorrer _ _ st) as [[e|res] st2] eqn:Ep; [discriminate|].
  simpl in H. injection H as <-.
  apply percorrer_spec in Ep as (ms & -> & HF). simpl.
  rewrite <- (Forall2_length _ _ _ HF).
  assert (Es : slice_to top_n (sorted_desc (enumerate linha))
               = sorted_desc (enumerate linha)).
  { unfold slice_to. destruct (top_n <? 0)%Z eqn:E; [apply Z.ltb_lt in E; lia|].
    apply firstn_all2. rewrite ordenados_length. lia. }
  rewrite retidos_selecao. unfold selecao_codigo. rewrite Es.
  rewrite filter_todos.
  - rewrite positivos_ordenados. apply positivos_enumerate.
  - apply List.Forall_forall. intros p Hp.
    apply List.filter_In in Hp as [Hp _]. apply In_ordenados in Hp.
    apply lookup_lt_Some in Hp. apply Nat.ltb_lt. lia.
Qed.

(** X10. The entries of a returned list come from pairwise distinct columns
    of the worker's row, each holding the score the entry was built from:
    no job position is emitted twice. *)
Theorem vagas_sem_repeticao id_trabalhador top_n st rows i linha l :
  matriz_similaridade_global st = Matriz (Arr2 rows) ->
  indice_trabalhador id_trabalhador (trabalhadores st) 0 = inr (Some i) ->
  rows !! i = Some linha ->
  fst (encontrar_matches_para_trabalhador fit cos id_trabalhador top_n st)
  = inr (Lista l) ->
  exists pares,
    Forall2 (emitido (vagas st)) pares l
    /\ List.NoDup (map fst pares)
    /\ Forall (fun p => linha !! fst p = Some (snd p)) pares.
Proof.
  intros Em Ei El H.
  rewrite (encontrar_linha fit cos _ _ _ _ _ _ Em Ei El) in H.
  destruct (percorrer _ _ st) as [[e|res] st2] eqn:Ep; [discriminate|].
  simpl in H. injection H as <-.
  apply percorrer_spec in Ep as (ms & -> & HF). simpl.
  eexists. split; [exact HF|]. split; [apply retidos_NoDup|].
  apply List.Forall_forall. intros p Hp. unfold retidos in Hp.
  apply List.filter_In in Hp as [Hp _].
  apply In_ordenados. eapply In_slice_to; exact Hp.
Qed.

(** X11. For every content of the cache, a NaN included, and every
    [top_n >= 0]: a returned list has at most [top_n] entries, and the
    similarity of every entry is a number, never NaN, that is at least 0. *)
Theorem limite_e_sinal id_trabalhador top_n st l :
  (0 <= top_n)%Z ->
  fst (encontrar_matches_para_trabalhador fit cos id_trabalhador top_n st)
  = inr (Lista l) ->
  (Z.of_nat (length l) <= top_n)%Z
  /\ Forall (fun m => F.isnan (similaridade m) = false
                      /\ F.le F.zero (similaridade m) = true) l.
Proof.
  intros Hk H.
  destruct (encontrar_matches_para_trabalhador fit cos id_trabalhador top_n st)
    as [r st'] eqn:E.
  simpl in H. subst r.
  apply encontrar_lista in E as (m & i & linha & _ & _ & _ & Ep).
  apply percorrer_spec in Ep as (ms & -> & HF). simpl.
  split.
  - rewrite <- (Forall2_length _ _ _ HF).
    pose proof (retidos_length
                  (vagas (apos_guarda fit cos st))
                  (slice_to top_n (sorted_desc (enumerate linha)))).
    pose proof (slice_to_length top_n (sorted_desc (enumerate linha)) Hk).
    lia.
  - pose proof (retidos_positivos (vagas (apos_guarda fit cos st))
                  (slice_to top_n (sorted_desc (enumerate linha)))) as Hp.
    induction HF as [|p b ps bs (vaga & _ & Hm) _ IH]; [constructor|].
    inversion Hp as [|? ? Hpos Hp']; subst.
    constructor; [|apply IH; exact Hp'].
    rewrite (montar_match_sim _ _ _ Hm).
    unfold positivo in Hpos. apply negb_true_iff in Hpos.
    apply orb_false_iff in Hpos as [Hnn Hle].
    split; [apply round4_not_nan | apply round4_nonneg]; assumption.
Qed.

End RankerResults.

Lemma erros_distintos id_trabalhador :
  erro_falha_inicializar <> erro_nao_encontrado id_trabalhador
  /\ erro_falha_inicializar <> erro_indice_fora
  /\ erro_falha_inicializar <> erro_vetor_invalido
  /\ erro_nao_encontrado id_trabalhador <> erro_indice_fora
  /\ erro_nao_encontrado id_trabalhador <> erro_vetor_invalido
  /\ erro_indice_fora <> erro_vetor_invalido.
Proof.
  unfold erro_nao_encontrado.
  split; [|split; [|split; [|split; [|split]]]];
    apply primeiro_distingue;
    repeat (erewrite first_app; [|vm_compute; reflexivity]);
    vm_compute; discriminate.
Qed.

Section RankerFailures.
Context {V : Type}.
Variable fit : V -> list string -> V * resultado (list (list float64)).
Variable cos :
  list (list float64) -> list (list float64)
  -> resultado (list (list float64)).
Implicit Type st : estado V float64.

(** X12. An error dictionary returned by the call carries one of four
    messages: initialisation failure, worker not found, worker position
    outside the matrix, invalid similarity vector.  For every worker id the
    four messages are pairwise different, so the message tells the failures
    apart. *)
Theorem erros_possiveis id_trabalhador top_n st e :
  fst (encontrar_matches_para_trabalhador fit cos id_trabalhador top_n st)
  = inr (DictErro e) ->
  (e = erro_falha_inicializar \/ e = erro_nao_encontrado id_trabalhador
   \/ e = erro_indice_fora \/ e = erro_vetor_invalido)
  /\ erro_falha_inicializar <> erro_nao_encontrado id_trabalhador
  /\ erro_falha_inicializar <> erro_indice_fora
  /\ erro_falha_inicializar <> erro_vetor_invalido
  /\ erro_nao_encontrado id_trabalhador <> erro_indice_fora
  /\ erro_nao_encontrado id_trabalhador <> erro_vetor_invalido
  /\ erro_indice_fora <> erro_vetor_invalido.
Proof.
  intros H. split; [|apply erros_distintos].
  rewrite encontrar_desdobra in H. cbv zeta in H.
  set (st1 := apos_guarda fit cos st) in *.
  destruct (matriz_similaridade_global st1) as [|m|]; simpl fst in H;
    [injection H as <-; left; reflexivity | | injection H as <-; left; reflexivity].
  destruct (indice_trabalhador id_trabalhador (trabalhadores st1) 0)
    as [x|[i|]]; simpl fst in H;
    [discriminate | | injection H as <-; right; left; reflexivity].
  destruct (shape0 m <=? i)%nat; simpl fst in H;
    [injection H as <-; right; right; left; reflexivity|].
  destruct (getitem m i) as [[x|linha]|]; simpl fst in H;
    [injection H as <-; right; right; right; reflexivity | | discriminate].
  destruct (percorrer _ _ st1) as [[x|res] st2]; discriminate.
Qed.

(** X13. With an array in the cache and the worker found at position [i]:
    when the array has no more than [i] rows (a cache older than the worker
    list) the call returns the index failure; when the row exists but the
    array is one-dimensional, so that the row is a scalar, it returns the
    invalid-vector failure.  Either way nothing but the line of output
    changes. *)
Theorem falhas_de_cache id_trabalhador top_n st m i :
  matriz_similaridade_global st = Matriz m ->
  indice_trabalhador id_trabalhador (trabalhadores st) 0 = inr (Some i) ->
  ((shape0 m <= i)%nat ->
   encontrar_matches_para_trabalhador fit cos id_trabalhador top_n st
   = (inr (DictErro erro_indice_fora),
      print (msg_indice_fora i (shape0 m)) st))
  /\ ((i < shape0 m)%nat -> (exists v, m = Arr1 v) ->
      encontrar_matches_para_trabalhador fit cos id_trabalhador top_n st
      = (inr (DictErro erro_vetor_invalido),
         print (msg_vetor_invalido id_trabalhador) st)).
Proof.
  intros Em Ei. rewrite encontrar_desdobra.
  rewrite (apos_guarda_valida fit cos st _ Em). cbv zeta. rewrite Em, Ei.
  split.
  - intros Hle. apply Nat.leb_le in Hle. rewrite Hle. reflexivity.
  - intros Hlt [v ->]. simpl in *.
    destruct (length v <=? i)%nat eqn:E; [apply Nat.leb_le in E; lia|].
    destruct (lookup_lt_is_Some_2 v i Hlt) as [x ->]. reflexivity.
Qed.

End RankerFailures.

(** * Further properties of the initialisation *)

Section InicializacaoExtra.
Context {V num : Type}.
Variable fit : V -> list string -> V * resultado (list (list num)).
Variable cos :
  list (list num) -> list (list num) -> resultado (list (list num)).
Implicit Type st : estado V num.

(** X14. After every run of the initialiser, whether it succeeds, stops at
    an empty list or meets a [ValueError], the cached document lists hold
    the document of each worker and of each job, in the order of the lists,
    and the worker and job lists themselves are unchanged. *)
Theorem inicializar_matcher_documentos st :
  docs_trabalhadores_global (inicializar_matcher fit cos st)
  = map (fun t => criar_documento t (PStr "trabalhador")) (trabalhadores st)
  /\ docs_vagas_global (inicializar_matcher fit cos st)
     = map (fun v => criar_documento v (PStr "vaga")) (vagas st)
  /\ trabalhadores (inicializar_matcher fit cos st) = trabalhadores st
  /\ vagas (inicializar_matcher fit cos st) = vagas st.
Proof.
  unfold inicializar_matcher. cbv zeta.
  destruct (vazia _ || vazia _); [repeat split|].
  destruct (fit _ _) as [v [m|e]]; [|repeat split].
  destruct (cos _ _); repeat split.
Qed.

(** X15. With an empty worker list or an empty job list the initialiser
    stops before fitting: [fit_transform] and [cosine_similarity] play no
    part in the result, and the similarity matrix, the TF-IDF matrix and the
    vectorizer stay as they were, so that a matrix cached earlier survives. *)
Theorem inicializar_matcher_listas_vazias st :
  trabalhadores st = [] \/ vagas st = [] ->
  (forall fit' cos',
     inicializar_matcher fit' cos' st = inicializar_matcher fit cos st)
  /\ matriz_similaridade_global (inicializar_matcher fit cos st)
     = matriz_similaridade_global st
  /\ tfidf_matrix_global (inicializar_matcher fit cos st)
     = tfidf_matrix_global st
  /\ vectorizer (inicializar_matcher fit cos st) = vectorizer st
  /\ head (stdout (inicializar_matcher fit cos st)) = Some msg_docs_vazios.
Proof.
  intros H.
  assert (E : forall fit' cos',
            inicializar_matcher fit' cos' st
            = print msg_docs_vazios
                (set_docs
                   (map (fun t => criar_documento t (PStr "trabalhador"))
                      (trabalhadores st))
                   (map (fun v => criar_documento v (PStr "vaga")) (vagas st))
                   (print msg_inicializando st))).
  { intros fit' cos'. unfold inicializar_matcher. cbv zeta.
    simpl docs_trabalhadores_global. simpl docs_vagas_global.
    simpl trabalhadores. simpl vagas.
    destruct H as [-> | ->]; simpl; [reflexivity|].
    rewrite orb_true_r. reflexivity. }
  split; [intros; rewrite !E; reflexivity|].
  rewrite E. repeat split.
Qed.

(** X16. When both lists are non-empty and [fit_transform] raises a
    [ValueError], the similarity matrix is reset to [None], whatever it
    held before; the TF-IDF matrix keeps its previous value, and the error
    is printed. *)
Theorem inicializar_matcher_value_error st v e :
  trabalhadores st <> [] -> vagas st <> [] ->
  fit (vectorizer st)
    (map (fun t => criar_documento t (PStr "trabalhador")) (trabalhadores st)
     ++ map (fun v => criar_documento v (PStr "vaga")) (vagas st))%list
  = (v, ValueError e) ->
  matriz_similaridade_global (inicializar_matcher fit cos st) = Nenhum
  /\ tfidf_matrix_global (inicializar_matcher fit cos st)
     = tfidf_matrix_global st
  /\ vectorizer (inicializar_matcher fit cos st) = v
  /\ head (stdout (inicializar_matcher fit cos st)) = Some (msg_erro_ajuste e).
Proof.
  intros Ht Hv Hf. unfold inicializar_matcher. cbv zeta.
  simpl docs_trabalhadores_global. simpl docs_vagas_global.
  simpl trabalhadores. simpl vagas. simpl vectorizer.
  destruct (trabalhadores st) as [|t ts]; [congruence|].
  destruct (vagas st) as [|j js]; [congruence|].
  simpl vazia. simpl orb. cbv iota.
  rewrite Hf. repeat split.
Qed.

End InicializacaoExtra.

(** * Initialisation and query together *)

Lemma head_msg_distinto (a b : string) :
  Str.first a <> Str.first b -> Some a <> Some b.
Proof.
  intros H E. apply H.
  apply (f_equal (fun o => match o with Some s => Str.first s | None => None end)) in E.
  exact E.
Qed.

Section ConsultaAposInicializar.
Context {V : Type}.
Variable fit : V -> list string -> V * resultado (list (list float64)).
Variable cos :
  list (list float64) -> list (list float64)
  -> resultado (list (list float64)).
Implicit Type st : estado V float64.

Lemma inicializar_sucesso st :
  head (stdout (inicializar_matcher fit cos st)) = Some msg_sucesso ->
  exists v M S,
    fit (vectorizer st)
      (map (fun t => criar_documento t (PStr "trabalhador")) (trabalhadores st)
       ++ map (fun v => criar_documento v (PStr "vaga")) (vagas st))%list
    = (v, Ok M)
    /\ cos (firstn (length (trabalhadores st)) M)
         (skipn (length (trabalhadores st)) M) = Ok S
    /\ matriz_similaridade_global (inicializar_matcher fit cos st)
       = Matriz (Arr2 S).
Proof.
  unfold inicializar_matcher. cbv zeta.
  simpl docs_trabalhadores_global. simpl docs_vagas_global. simpl vectorizer.
  simpl trabalhadores. simpl vagas. rewrite length_map.
  destruct (vazia _ || vazia _).
  { simpl. intros H. exfalso. revert H. apply head_msg_distinto.
    vm_compute. discriminate. }
  destruct (fit _ _) as [v [M|e]].
  2:{ simpl. intros H. exfalso. revert H. apply head_msg_distinto.
      unfold msg_erro_ajuste. erewrite first_app by (vm_compute; reflexivity).
      vm_compute. discriminate. }
  simpl tfidf_matrix_global.
  destruct (cos _ _) as [S|e] eqn:Ec.
  - intros _. exists v, M, S.
    split; [reflexivity|]. split; [exact Ec | reflexivity].
  - simpl. intros H. exfalso. revert H. apply head_msg_distinto.
    unfold msg_erro_ajuste. erewrite first_app by (vm_compute; reflexivity).
    vm_compute. discriminate.
Qed.

(** X17. The initialisation failure takes precedence over every other
    outcome.  When the cache holds no array at the call and the
    re-initialisation cannot fill it, because the worker list or the job
    list is empty or because [fit_transform] raises a [ValueError], the call
    returns the initialisation failure for every worker id, known or not,
    and every [top_n]. *)
Theorem falha_de_inicializacao_precede id_trabalhador top_n st :
  is_ndarray (matriz_similaridade_global st) = false ->
  (trabalhadores st = [] \/ vagas st = []
   \/ exists v e,
        fit (vectorizer st)
          (map (fun t => criar_documento t (PStr "trabalhador"))
             (trabalhadores st)
           ++ map (fun v => criar_documento v (PStr "vaga")) (vagas st))%list
        = (v, ValueError e)) ->
  fst (encontrar_matches_para_trabalhador fit cos id_trabalhador top_n st)
  = inr (DictErro erro_falha_inicializar).
Proof.
  intros Hinv Hcause.
  rewrite encontrar_falha; [reflexivity|].
  unfold apos_guarda.
  assert (Hinit : is_ndarray
                    (matriz_similaridade_global
                       (inicializar_matcher fit cos
                          (print msg_matriz_nao_inicializada st))) = false).
  { unfold inicializar_matcher. cbv zeta.
    simpl docs_trabalhadores_global. simpl docs_vagas_global.
    simpl vectorizer. simpl trabalhadores. simpl vagas.
    destruct (vazia (map _ (trabalhadores st))
              || vazia (map _ (vagas st))) eqn:Ev; [exact Hinv|].
    destruct Hcause as [Ht|[Hv|(v & e & Hf)]].
    - rewrite Ht in Ev. discriminate Ev.
    - rewrite Hv in Ev. simpl in Ev. rewrite orb_true_r in Ev. discriminate Ev.
    - rewrite Hf. reflexivity. }
  destruct (matriz_similaridade_global st); [exact Hinit | discriminate | exact Hinit].
Qed.

(** X18. After an initialisation that ends with the success message, with
    a [fit_transform] that gives one row per document and a
    [cosine_similarity] that gives one row per row of its first argument,
    the query of a worker of the list never fails: provided every job has
    its ['id'], ['titulo'] and ['empresa'], it returns a list, for every
    [top_n]. *)
Theorem consulta_apos_sucesso id_trabalhador top_n st i :
  (forall v docs v' M, fit v docs = (v', Ok M) -> length M = length docs) ->
  (forall X Y S, cos X Y = Ok S -> length S = length X) ->
  head (stdout (inicializar_matcher fit cos st)) = Some msg_sucesso ->
  indice_trabalhador id_trabalhador (trabalhadores st) 0 = inr (Some i) ->
  forallb (tem_chaves ["id"; "titulo"; "empresa"]) (vagas st) = true ->
  exists l,
    fst (encontrar_matches_para_trabalhador fit cos id_trabalhador top_n
           (inicializar_matcher fit cos st)) = inr (Lista l).
Proof.
  intros Hfit Hcos Hok Hi Hkeys.
  destruct (inicializar_sucesso st Hok) as (v & M & S & Ef & Ec & Em).
  destruct (inicializar_matcher_listas fit cos st) as [Et Ev].
  set (st' := inicializar_matcher fit cos st) in *.
  pose proof (Hfit _ _ _ _ Ef) as HM. rewrite length_app, !length_map in HM.
  pose proof (Hcos _ _ _ Ec) as HS. rewrite length_firstn in HS.
  assert (Hlt : (i < length (trabalhadores st))%nat).
  { apply indice_trabalhador_from in Hi as (_ & (t & w & Hl & _) & _).
    apply lookup_lt_Some in Hl. lia. }
  destruct (lookup_lt_is_Some_2 S i ltac:(lia)) as [linha Hl].
  rewrite <- Et in Hi.
  rewrite (encontrar_linha fit cos _ _ _ _ _ _ Em Hi Hl).
  rewrite <- Ev in Hkeys.
  destruct (percorrer_sem_excecao
              (slice_to top_n (sorted_desc (enumerate linha))) [] st' Hkeys)
    as [res Hres].
  destruct (percorrer _ _ st') as [[e|res'] st2]; simpl in *;
    [discriminate Hres | eauto].
Qed.

End ConsultaAposInicializar.

(** * The HTTP handler *)

Lemma any_id_indice id_trabalhador ts k :
  any_id id_trabalhador ts
  = match indice_trabalhador id_trabalhador ts k with
    | inl e => inl e
    | inr None => inr false
    | inr (Some _) => inr true
    end.
Proof.
  revert k. induction ts as [|t ts IH]; intros k; simpl; [reflexivity|].
  destruct (t !! "id") as [v|]; [|reflexivity].
  destruct (py_eq_str v id_trabalhador); [reflexivity | apply IH].
Qed.

Lemma detail_distinto id_trabalhador :
  detail_nao_encontrado id_trabalhador <> erro_nao_encontrado id_trabalhador.
Proof.
  intros E. apply (f_equal (String.get 19)) in E.
  vm_compute in E. discriminate E.
Qed.

Lemma detail_inesperado_distinto id_trabalhador :
  detail_inesperado <> erro_nao_encontrado id_trabalhador.
Proof.
  apply primeiro_distingue. unfold erro_nao_encontrado.
  erewrite (first_app "Trabalhador com ID '") by reflexivity.
  vm_compute. discriminate.
Qed.

Section ApiFacts.
Context {V : Type}.
Variable fit : V -> list string -> V * resultado (list (list float64)).
Variable cos :
  list (list float64) -> list (list float64)
  -> resultado (list (list float64)).
Implicit Type st : estado V float64.

Lemma encontrar_achado id_trabalhador top_n st i e :
  indice_trabalhador id_trabalhador (trabalhadores st) 0 = inr (Some i) ->
  fst (encontrar_matches_para_trabalhador fit cos id_trabalhador top_n st)
  = inr (DictErro e) ->
  e <> erro_nao_encontrado id_trabalhador.
Proof.
  intros Hi H.
  destruct (erros_distintos id_trabalhador) as (D1 & _ & _ & D4 & D5 & _).
  rewrite encontrar_desdobra in H. cbv zeta in H.
  destruct (apos_guarda_listas fit cos st) as [Et _].
  set (st1 := apos_guarda fit cos st) in *.
  rewrite Et, Hi in H.
  destruct (matriz_similaridade_global st1) as [|m|]; simpl fst in H;
    [injection H as <-; exact D1 | | injection H as <-; exact D1].
  destruct (shape0 m <=? i)%nat; simpl fst in H;
    [injection H as <-; intros E; apply D4; symmetry; exact E|].
  destruct (getitem m i) as [[x|linha]|]; simpl fst in H;
    [injection H as <-; intros E; apply D5; symmetry; exact E | | discriminate].
  destruct (percorrer _ _ st1) as [[x|res] st2]; discriminate.
Qed.

(** X19. For an id that no record of the worker list carries, the handler
    answers 404 before the matcher is called: the state of the matcher is
    returned untouched, so that not even a missing similarity matrix is
    re-initialised. *)
Theorem api_nao_encontrado id_trabalhador top_n st log :
  Forall (fun t : dict =>
            exists v, t !! "id" = Some v
                      /\ py_eq_str v id_trabalhador = false)
    (trabalhadores st) ->
  get_matches_para_trabalhador fit cos id_trabalhador top_n st log
  = (HTTPException 404 (detail_nao_encontrado id_trabalhador), st,
     WarningNaoEncontrado id_trabalhador
     :: InfoRequisicao id_trabalhador top_n :: log).
Proof.
  intros H. unfold get_matches_para_trabalhador. cbv zeta.
  rewrite (any_id_indice _ _ 0).
  rewrite (indice_trabalhador_ausente _ _ 0 H). reflexivity.
Qed.

(** X20. When every worker record has an ['id'], the handler lets no
    exception through and answers in one of three ways: 404 exactly when no
    record has the requested id; otherwise the list of matches the matcher
    returned, or 500 when the matcher returned an error dictionary or
    raised. *)
Theorem api_respostas id_trabalhador top_n st log :
  forallb (tem_chaves ["id"]) (trabalhadores st) = true ->
  let r := fst (fst (get_matches_para_trabalhador fit cos id_trabalhador
                       top_n st log)) in
  (indice_trabalhador id_trabalhador (trabalhadores st) 0 = inr None
   /\ r = HTTPException 404 (detail_nao_encontrado id_trabalhador))
  \/ ((exists i, indice_trabalhador id_trabalhador (trabalhadores st) 0
                 = inr (Some i))
      /\ ((exists l,
             r = Retorno l
             /\ fst (encontrar_matches_para_trabalhador fit cos
                       id_trabalhador top_n st) = inr (Lista l))
          \/ exists detail, r = HTTPException 500 detail)).
Proof.
  intros Hk. cbv zeta. unfold get_matches_para_trabalhador. cbv zeta.
  rewrite (any_id_indice _ _ 0).
  destruct (indice_trabalhador_sem_excecao id_trabalhador
              (trabalhadores st) 0 Hk) as [[i|] ->].
  - right. split; [eauto|].
    destruct (encontrar_matches_para_trabalhador fit cos id_trabalhador
                top_n st) as [[e|[l|erro]] st']; simpl; eauto.
  - left. split; reflexivity.
Qed.

(** X21. The not-found failure of the matcher never reaches a client: no
    [HTTPException] raised by the handler carries the matcher's not-found
    message as its detail.  The handler's own 404 detail differs from it,
    and a 500 is raised only for a worker the matcher finds. *)
Theorem api_sem_nao_encontrado_interno id_trabalhador top_n st log
  status detail :
  fst (fst (get_matches_para_trabalhador fit cos id_trabalhador top_n st log))
  = HTTPException status detail ->
  detail <> erro_nao_encontrado id_trabalhador.
Proof.
  unfold get_matches_para_trabalhador. cbv zeta.
  rewrite (any_id_indice _ _ 0).
  destruct (indice_trabalhador id_trabalhador (trabalhadores st) 0)
    as [e|[i|]] eqn:Ei; simpl; try discriminate.
  - pose proof (encontrar_achado id_trabalhador top_n st i) as Hc.
    destruct (encontrar_matches_para_trabalhador fit cos id_trabalhador
                top_n st) as [[e|[l|erro]] st']; simpl in *; try discriminate.
    + intros [= _ <-]. apply detail_inesperado_distinto.
    + intros [= _ <-]. apply (Hc erro Ei eq_refl).
  - intros [= _ <-]. apply detail_distinto.
Qed.

End ApiFacts.


(** * The further properties on concrete inputs *)

Lemma sem_matches_lista_vazia_witness :
  encontrar_matches_para_trabalhador Exemplo.fit Exemplo.cos "t1" 3
    (Exemplo.com_linha [Fin 0; NaN; Fin (-1 # 2)])
  = (inr (Lista []), Exemplo.com_linha [Fin 0; NaN; Fin (-1 # 2)]).
Proof.
  apply (sem_matches_lista_vazia Exemplo.fit Exemplo.cos "t1" 3
           (Exemplo.com_linha [Fin 0; NaN; Fin (-1 # 2)])
           [[Fin 0; NaN; Fin (-1 # 2)]] 0 [Fin 0; NaN; Fin (-1 # 2)]);
    try reflexivity.
  repeat constructor.
Defined.

Lemma top_n_nao_positivo_witness :
  encontrar_matches_para_trabalhador Exemplo.fit Exemplo.cos "t1" (-1)
    (Exemplo.com_linha [Fin (1 # 4); Fin (1 # 2); Fin 0])
  = encontrar_matches_para_trabalhador Exemplo.fit Exemplo.cos "t1" 2
      (Exemplo.com_linha [Fin (1 # 4); Fin (1 # 2); Fin 0]).
Proof.
  apply (top_n_nao_positivo Exemplo.fit Exemplo.cos "t1" (-1)
           (Exemplo.com_linha [Fin (1 # 4); Fin (1 # 2); Fin 0])
           [[Fin (1 # 4); Fin (1 # 2); Fin 0]] 0
           [Fin (1 # 4); Fin (1 # 2); Fin 0]);
    try reflexivity.
Defined.

Lemma todos_os_positivos_witness :
  exists l,
    fst (encontrar_matches_para_trabalhador Exemplo.fit Exemplo.cos "t1" 5
           (Exemplo.com_linha [Fin (1 # 4); NaN; Fin (1 # 2)]))
    = inr (Lista l)
    /\ length l = 2%nat.
Proof.
  eexists. split; [vm_compute; reflexivity|].
  apply (todos_os_positivos Exemplo.fit Exemplo.cos "t1" 5
           (Exemplo.com_linha [Fin (1 # 4); NaN; Fin (1 # 2)])
           [[Fin (1 # 4); NaN; Fin (1 # 2)]] 0
           [Fin (1 # 4); NaN; Fin (1 # 2)]);
    try reflexivity; simpl; lia.
Defined.

Lemma vagas_sem_repeticao_witness :
  exists pares : list (nat * float64),
    List.NoDup (map fst pares) /\ length pares = 2%nat.
Proof.
  destruct (vagas_sem_repeticao Exemplo.fit Exemplo.cos "t1" 5
              (Exemplo.com_linha [Fin (1 # 4); NaN; Fin (1 # 2)])
              [[Fin (1 # 4); NaN; Fin (1 # 2)]] 0
              [Fin (1 # 4); NaN; Fin (1 # 2)] _
              eq_refl eq_refl eq_refl eq_refl)
    as (pares & HF & Hnd & _).
  exists pares. split; [exact Hnd|].
  rewrite (Forall2_length _ _ _ HF). reflexivity.
Defined.

Lemma limite_e_sinal_witness :
  exists l,
    fst (encontrar_matches_para_trabalhador Exemplo.fit Exemplo.cos "t1" 1
           (Exemplo.com_linha [NaN; Fin (1 # 4); Fin (1 # 2)]))
    = inr (Lista l)
    /\ (Z.of_nat (length l) <= 1)%Z.
Proof.
  eexists. split; [vm_compute; reflexivity|].
  apply (limite_e_sinal Exemplo.fit Exemplo.cos "t1" 1
           (Exemplo.com_linha [NaN; Fin (1 # 4); Fin (1 # 2)]));
    [lia | reflexivity].
Defined.

Lemma erros_possiveis_witness :
  erro_indice_fora = erro_falha_inicializar
  \/ erro_indice_fora = erro_nao_encontrado "t2"
  \/ erro_indice_fora = erro_indice_fora
  \/ erro_indice_fora = erro_vetor_invalido.
Proof.
  apply (erros_possiveis Exemplo.fit Exemplo.cos "t2" 3
           (Exemplo.com_matriz (Arr2 [[Fin (1 # 2)]]))).
  reflexivity.
Defined.

Lemma falhas_de_cache_witness :
  fst (encontrar_matches_para_trabalhador Exemplo.fit Exemplo.cos "t2" 3
         (Exemplo.com_matriz (Arr2 [[Fin (1 # 2)]])))
  = inr (DictErro erro_indice_fora)
  /\ fst (encontrar_matches_para_trabalhador Exemplo.fit Exemplo.cos "t2" 3
            (Exemplo.com_matriz (Arr1 [Fin (1 # 2); Fin (1 # 4)])))
     = inr (DictErro erro_vetor_invalido).
Proof.
  split.
  - destruct (falhas_de_cache Exemplo.fit Exemplo.cos "t2" 3
                (Exemplo.com_matriz (Arr2 [[Fin (1 # 2)]]))
                (Arr2 [[Fin (1 # 2)]]) 1 eq_refl eq_refl) as [H _].
    rewrite H by (simpl; lia). reflexivity.
  - destruct (falhas_de_cache Exemplo.fit Exemplo.cos "t2" 3
                (Exemplo.com_matriz (Arr1 [Fin (1 # 2); Fin (1 # 4)]))
                (Arr1 [Fin (1 # 2); Fin (1 # 4)]) 1 eq_refl eq_refl)
      as [_ H].
    rewrite H; [reflexivity | simpl; lia | eexists; reflexivity].
Defined.

Lemma inicializar_matcher_listas_vazias_witness :
  matriz_similaridade_global
    (inicializar_matcher Exemplo.fit_ok Exemplo.cos_ok Exemplo.sem_vagas)
  = Matriz (Arr2 [[Fin (1 # 2)]]).
Proof.
  apply (inicializar_matcher_listas_vazias Exemplo.fit_ok Exemplo.cos_ok
           Exemplo.sem_vagas).
  right. reflexivity.
Defined.

Lemma inicializar_matcher_value_error_witness :
  matriz_similaridade_global
    (inicializar_matcher Exemplo.fit Exemplo.cos
       (Exemplo.com_linha [Fin (1 # 2)]))
  = Nenhum.
Proof.
  apply (inicializar_matcher_value_error Exemplo.fit Exemplo.cos
           (Exemplo.com_linha [Fin (1 # 2)]) tt "empty vocabulary");
    [discriminate | discriminate | reflexivity].
Defined.

Lemma falha_de_inicializacao_precede_witness :
  fst (encontrar_matches_para_trabalhador Exemplo.fit Exemplo.cos
         "nonexistent-id" 3 Exemplo.sem_matriz)
  = inr (DictErro erro_falha_inicializar).
Proof.
  apply (falha_de_inicializacao_precede Exemplo.fit Exemplo.cos
           "nonexistent-id" 3 Exemplo.sem_matriz); [reflexivity|].
  right. right. exists tt, "empty vocabulary". reflexivity.
Defined.

Lemma fit_ok_linhas v docs v' M :
  Exemplo.fit_ok v docs = (v', Ok M) -> length M = length docs.
Proof. intros [= _ <-]. apply length_map. Qed.

Lemma cos_ok_linhas X Y S :
  Exemplo.cos_ok X Y = Ok S -> length S = length X.
Proof. intros [= <-]. apply length_map. Qed.

Lemma consulta_apos_sucesso_witness :
  exists l,
    fst (encontrar_matches_para_trabalhador Exemplo.fit_ok Exemplo.cos_ok
           "t3" 2
           (inicializar_matcher Exemplo.fit_ok Exemplo.cos_ok
              (estado_inicial tt))) = inr (Lista l).
Proof.
  apply (consulta_apos_sucesso Exemplo.fit_ok Exemplo.cos_ok "t3" 2
           (estado_inicial tt) 2 fit_ok_linhas cos_ok_linhas);
    vm_compute; reflexivity.
Defined.

Lemma api_nao_encontrado_witness :
  fst (fst (get_matches_para_trabalhador Exemplo.fit Exemplo.cos
              "nonexistent-id" 3 Exemplo.sem_matriz []))
  = HTTPException 404 (detail_nao_encontrado "nonexistent-id")
  /\ snd (fst (get_matches_para_trabalhador Exemplo.fit Exemplo.cos
                 "nonexistent-id" 3 Exemplo.sem_matriz []))
     = Exemplo.sem_matriz.
Proof.
  rewrite (api_nao_encontrado Exemplo.fit Exemplo.cos "nonexistent-id" 3
             Exemplo.sem_matriz []).
  - split; reflexivity.
  - repeat constructor; eexists; split; vm_compute; reflexivity.
Defined.

Lemma api_respostas_witness :
  exists detail,
    fst (fst (get_matches_para_trabalhador Exemplo.fit Exemplo.cos
                "t1" 3 Exemplo.sem_matriz []))
    = HTTPException 500 detail.
Proof.
  destruct (api_respostas Exemplo.fit Exemplo.cos "t1" 3 Exemplo.sem_matriz []
              eq_refl) as [[H _]|[_ [(l & _ & H)|H]]].
  - vm_compute in H. discriminate H.
  - vm_compute in H. discriminate H.
  - exact H.
Defined.

Lemma api_sem_nao_encontrado_interno_witness :
  erro_falha_inicializar <> erro_nao_encontrado "t1".
Proof.
  apply (api_sem_nao_encontrado_interno Exemplo.fit Exemplo.cos "t1" 3
           Exemplo.sem_matriz [] 500).
  vm_compute. reflexivity.
Defined.


(** * The document and the fields of a record *)

(** X22. The document of a record depends on two fields only: for a worker
    its skills and its experience, for a job its required skills and its
    description.  Setting any other field, such as the name of a worker or
    the title or the company of a job, leaves the document unchanged. *)
Theorem criar_documento_outros_campos (item : dict) (tipo : pyval)
  (k : string) (v : pyval) :
  k <> "habilidades" -> k <> "experiencia" ->
  k <> "requisitos_habilidades" -> k <> "descricao" ->
  criar_documento (<[k := v]> item) tipo = criar_documento item tipo.
Proof.
  intros H1 H2 H3 H4. unfold criar_documento, dict_get.
  rewrite !lookup_insert_ne by assumption. reflexivity.
Qed.

Lemma criar_documento_outros_campos_witness :
  criar_documento
    (<["titulo" := PStr "Cientista de Dados"]>
       {[ "requisitos_habilidades" := PStr "Python, SQL";
          "descricao" := PStr "Modelos preditivos." ]}) (PStr "vaga")
  = "python sql modelos preditivos".
Proof.
  rewrite (criar_documento_outros_campos _ (PStr "vaga") "titulo"
             (PStr "Cientista de Dados")) by discriminate.
  reflexivity.
Defined.


(** * The normaliser in terms of words *)

Lemma words_lower s : words (Str.lower s) = map Str.lower (words s).
Proof.
  induction s as [|c t IH]; [reflexivity|].
  change (Str.lower (String c t)) with (String (Latin1.lower_char c) (Str.lower t)).
  destruct t as [|d t'].
  - simpl. rewrite word_lower_char. destruct (Latin1.is_word c); reflexivity.
  - change (Str.lower (String d t'))
      with (String (Latin1.lower_char d) (Str.lower t')) in *.
    change (words (String (Latin1.lower_char c)
                     (String (Latin1.lower_char d) (Str.lower t'))))
      with (if Latin1.is_word (Latin1.lower_char c) then
              if Latin1.is_word (Latin1.lower_char d) then
                match words (String (Latin1.lower_char d) (Str.lower t')) with
                | w :: ws => String (Latin1.lower_char c) w :: ws
                | [] => [String (Latin1.lower_char c) EmptyString]
                end
              else String (Latin1.lower_char c) EmptyString
                   :: words (String (Latin1.lower_char d) (Str.lower t'))
            else words (String (Latin1.lower_char d) (Str.lower t'))).
    change (words (String c (String d t')))
      with (if Latin1.is_word c then
              if Latin1.is_word d then
                match words (String d t') with
                | w :: ws => String c w :: ws
                | [] => [String c EmptyString]
                end
              else String c EmptyString :: words (String d t')
            else words (String d t')).
    rewrite !word_lower_char, IH.
    destruct (Latin1.is_word c); [|reflexivity].
    destruct (Latin1.is_word d); [|reflexivity].
    destruct (words (String d t')); reflexivity.
Qed.

Lemma words_cons c t :
  words (String c t)
  = if Latin1.is_word c then
      match t with
      | EmptyString => [String c EmptyString]
      | String d _ =>
          if Latin1.is_word d then
            match words t with
            | w :: ws => String c w :: ws
            | [] => [String c EmptyString]
            end
          else String c EmptyString :: words t
      end
    else words t.
Proof. reflexivity. Qed.

Lemma words_nonempty c t : Latin1.is_word c = true -> words (String c t) <> [].
Proof.
  intros H. rewrite words_cons, H. destruct t as [|d t']; [discriminate|].
  destruct (Latin1.is_word d); [|discriminate].
  destruct (words (String d t')); discriminate.
Qed.

Lemma join_sp_cons w ws :
  join_sp (w :: ws)
  = match ws with [] => w | _ => w +:+ " " +:+ join_sp ws end.
Proof. reflexivity. Qed.

Lemma join_sp_nonempty c w ws : join_sp (String c w :: ws) <> EmptyString.
Proof. rewrite join_sp_cons. destruct ws; discriminate. Qed.

Lemma words_head_nonempty s : Forall (fun w => w <> EmptyString) (words s).
Proof.
  induction s as [|c t IH]; [constructor|].
  rewrite words_cons. destruct (Latin1.is_word c); [|exact IH].
  destruct t as [|d t']; [repeat constructor; discriminate|].
  destruct (Latin1.is_word d).
  - destruct (words (String d t')) as [|w ws]; [repeat constructor; discriminate|].
    inversion IH; subst. constructor; [discriminate | assumption].
  - constructor; [discriminate | exact IH].
Qed.

Lemma lead_nil s : words s = [] -> lead s = EmptyString.
Proof. intros H. unfold lead. rewrite H. reflexivity. Qed.

Lemma lead_word c t : Latin1.is_word c = true -> lead (String c t) = EmptyString.
Proof. intros H. unfold lead. rewrite H. destruct (words (String c t)); reflexivity. Qed.

Lemma lead_nonword c t :
  Latin1.is_word c = false -> words (String c t) <> [] -> lead (String c t) = " ".
Proof.
  intros H Hne. unfold lead. rewrite H.
  destruct (words (String c t)); [congruence | reflexivity].
Qed.

Lemma join_words_nonempty s : words s <> [] -> join_sp (words s) <> EmptyString.
Proof.
  intros Hne. pose proof (words_head_nonempty s) as Hw.
  destruct (words s) as [|w ws]; [congruence|].
  inversion Hw as [|? ? Hw1 _]; subst.
  destruct w as [|e w']; [congruence|]. apply join_sp_nonempty.
Qed.

Lemma rstrip_nonempty s r :
  Str.rstrip s = r -> r <> EmptyString -> Str.all Latin1.is_space s = false.
Proof.
  intros H Hr. destruct (Str.all Latin1.is_space s) eqn:E; [|reflexivity].
  apply rstrip_empty_iff in E. congruence.
Qed.

Lemma rstrip_re_sub s :
  Str.rstrip (Str.re_sub_plus Latin1.is_nonword " " s)
  = lead s +:+ join_sp (words s).
Proof.
  induction s as [|c t IH]; [reflexivity|].
  destruct (Latin1.is_word c) eqn:Hc.
  - rewrite re_sub_plus_out by (unfold Latin1.is_nonword; rewrite Hc; reflexivity).
    rewrite rstrip_cons, (lead_word c t Hc), append_nil_l.
    assert (Hcs : Latin1.is_space c = false) by (apply word_not_space; exact Hc).
    rewrite words_cons, Hc.
    destruct t as [|d t'].
    + change (Str.re_sub_plus Latin1.is_nonword " " "") with "".
      simpl Str.all. rewrite Hcs. reflexivity.
    + destruct (Latin1.is_word d) eqn:Hd.
      * pose proof (words_nonempty d t' Hd) as Hne.
        rewrite (lead_word d t' Hd), append_nil_l in IH.
        rewrite (rstrip_nonempty _ _ IH (join_words_nonempty _ Hne)), IH.
        destruct (words (String d t')) as [|w ws]; [congruence|].
        rewrite !join_sp_cons. destruct ws; reflexivity.
      * destruct (words (String d t')) as [|w ws] eqn:Ew.
        -- rewrite (lead_nil _ Ew) in IH. change ("" +:+ join_sp []) with "" in IH.
           apply rstrip_empty_iff in IH. rewrite IH, Hcs. reflexivity.
        -- assert (Hne : words (String d t') <> []) by congruence.
           rewrite (lead_nonword d t' Hd Hne) in IH.
           rewrite (rstrip_nonempty _ _ IH ltac:(discriminate)), IH.
           reflexivity.
  - assert (Hn : Latin1.is_nonword c = true)
      by (unfold Latin1.is_nonword; rewrite Hc; reflexivity).
    assert (Ew : words (String c t) = words t) by (rewrite words_cons, Hc; reflexivity).
    destruct t as [|d t'].
    + rewrite Ew, lead_nil by (rewrite Ew; reflexivity).
      simpl. rewrite Hn. reflexivity.
    + destruct (Latin1.is_word d) eqn:Hd.
      * rewrite re_sub_plus_end
          by (try assumption; unfold Latin1.is_nonword; rewrite Hd; reflexivity).
        change (" " +:+ ?x) with (String " " x).
        rewrite rstrip_cons.
        pose proof (words_nonempty d t' Hd) as Hne.
        rewrite (lead_nonword c _ Hc) by (rewrite Ew; exact Hne).
        rewrite Ew.
        rewrite (lead_word d t' Hd), append_nil_l in IH.
        rewrite (rstrip_nonempty _ _ IH (join_words_nonempty _ Hne)), IH.
        reflexivity.
      * rewrite re_sub_plus_in
          by (try assumption; unfold Latin1.is_nonword; rewrite Hd; reflexivity).
        rewrite IH, Ew.
        destruct (words (String d t')) as [|w ws] eqn:Ew'.
        -- rewrite (lead_nil (String d t') Ew').
           rewrite (lead_nil (String c (String d t')) Ew). reflexivity.
        -- rewrite (lead_nonword d t' Hd) by congruence.
           rewrite (lead_nonword c (String d t') Hc) by congruence.
           reflexivity.
Qed.

Lemma skip_re_sub x :
  Str.skip Latin1.is_space (Str.re_sub_plus Latin1.is_nonword " " x)
  = Str.re_sub_plus Latin1.is_nonword " " (Str.skip Latin1.is_nonword x).
Proof.
  induction x as [|c t IH]; [reflexivity|].
  destruct (Latin1.is_nonword c) eqn:Hc.
  - change (Str.skip Latin1.is_nonword (String c t))
      with (if Latin1.is_nonword c then Str.skip Latin1.is_nonword t
            else String c t).
    rewrite Hc. destruct t as [|d t'].
    + simpl. rewrite Hc. reflexivity.
    + destruct (Latin1.is_nonword d) eqn:Hd.
      * rewrite re_sub_plus_in by assumption. exact IH.
      * rewrite re_sub_plus_end by assumption.
        change (" " +:+ ?x) with (String " " x).
        change (Str.skip Latin1.is_space (String " " ?x))
          with (Str.skip Latin1.is_space x).
        exact IH.
  - rewrite re_sub_plus_out by assumption.
    change (Str.skip Latin1.is_nonword (String c t))
      with (if Latin1.is_nonword c then Str.skip Latin1.is_nonword t
            else String c t).
    rewrite Hc, re_sub_plus_out by assumption.
    apply skip_id. intros e [= <-]. apply word_not_space.
    unfold Latin1.is_nonword in Hc. apply negb_false_iff in Hc. exact Hc.
Qed.

Lemma words_skip x : words (Str.skip Latin1.is_nonword x) = words x.
Proof.
  induction x as [|c t IH]; [reflexivity|].
  change (Str.skip Latin1.is_nonword (String c t))
    with (if Latin1.is_nonword c then Str.skip Latin1.is_nonword t
          else String c t).
  destruct (Latin1.is_nonword c) eqn:Hc; [|reflexivity].
  rewrite IH, words_cons. unfold Latin1.is_nonword in Hc.
  apply negb_true_iff in Hc. rewrite Hc. reflexivity.
Qed.

Lemma lead_skip x : lead (Str.skip Latin1.is_nonword x) = EmptyString.
Proof.
  destruct (Str.skip Latin1.is_nonword x) as [|c t] eqn:E; [reflexivity|].
  apply lead_word.
  assert (H : Str.first (Str.skip Latin1.is_nonword x) = Some c)
    by (rewrite E; reflexivity).
  apply skip_first in H. unfold Latin1.is_nonword in H.
  apply negb_false_iff in H. exact H.
Qed.

Lemma strip_re_sub x :
  Str.strip (Str.re_sub_plus Latin1.is_nonword " " x) = join_sp (words x).
Proof.
  unfold Str.strip, Str.lstrip.
  rewrite skip_re_sub, rstrip_re_sub, lead_skip, words_skip. reflexivity.
Qed.

(** X23. For a text of code points 0 to 255, the normalised text is the
    words of the text, its maximal runs of word characters, each
    lowercased, joined by single spaces: on that range [str.lower] maps a
    word character to one word character, so that it neither splits nor
    joins words. *)
Theorem preprocessar_texto_words (s : string) :
  preprocessar_texto (PStr s) = join_sp (map Str.lower (words s)).
Proof.
  simpl.
  rewrite (canon_fix Latin1.is_space)
    by (first [reflexivity | exact word_not_space | apply canon_re_sub_nonword]).
  rewrite strip_re_sub. rewrite words_lower. reflexivity.
Qed.

Lemma append_assoc a b c : (a +:+ b) +:+ c = a +:+ (b +:+ c).
Proof.
  induction a as [|x a IH]; [reflexivity|].
  rewrite !append_cons, IH. reflexivity.
Qed.

Lemma words_sep b : words (String " " b) = words b.
Proof. reflexivity. Qed.

Lemma words_app_space a b : words (a +:+ " " +:+ b) = (words a ++ words b)%list.
Proof.
  induction a as [|c t IH].
  - rewrite append_nil_l. reflexivity.
  - rewrite append_cons, !words_cons.
    destruct (Latin1.is_word c); [|exact IH].
    destruct t as [|d t'].
    + rewrite append_nil_l.
      change (" " +:+ b) with (String " " b). cbv beta iota.
      change (Latin1.is_word " ") with false. cbv iota.
      rewrite words_sep. reflexivity.
    + rewrite append_cons in *.
      destruct (Latin1.is_word d) eqn:Hd.
      * rewrite IH. pose proof (words_nonempty d t' Hd) as Hne.
        destruct (words (String d t')) as [|w ws]; [congruence | reflexivity].
      * rewrite IH. reflexivity.
Qed.

Lemma join_sp_empty_iff ws :
  Forall (fun w => w <> EmptyString) ws ->
  join_sp ws = EmptyString -> ws = [].
Proof.
  intros H E. destruct ws as [|w ws]; [reflexivity|].
  inversion H as [|? ? Hw _]; subst.
  destruct w as [|c w]; [congruence|].
  exfalso. eapply join_sp_nonempty; exact E.
Qed.

Lemma juntar_nonempty a b :
  a <> EmptyString -> b <> EmptyString -> juntar a b = a +:+ " " +:+ b.
Proof. destruct a; [congruence|]. destruct b; [congruence|]. reflexivity. Qed.

Lemma juntar_empty_r a : juntar a EmptyString = a.
Proof. destruct a; reflexivity. Qed.

Lemma join_sp_app l1 l2 :
  Forall (fun w => w <> EmptyString) l1 ->
  Forall (fun w => w <> EmptyString) l2 ->
  join_sp (l1 ++ l2) = juntar (join_sp l1) (join_sp l2).
Proof.
  intros H1 H2. induction l1 as [|w l1 IH]; [reflexivity|].
  inversion H1 as [|? ? Hw H1']; subst. specialize (IH H1').
  destruct l2 as [|w2 l2].
  { rewrite app_nil_r. symmetry. apply juntar_empty_r. }
  assert (J2 : join_sp (w2 :: l2) <> EmptyString).
  { intros E. apply join_sp_empty_iff in E; [discriminate | exact H2]. }
  destruct l1 as [|w' l1].
  - change (join_sp ([w] ++ w2 :: l2)) with (w +:+ " " +:+ join_sp (w2 :: l2)).
    symmetry. apply juntar_nonempty; assumption.
  - change (join_sp ((w :: w' :: l1) ++ w2 :: l2))
      with (w +:+ " " +:+ join_sp ((w' :: l1) ++ w2 :: l2)).
    rewrite IH.
    assert (J1 : join_sp (w' :: l1) <> EmptyString).
    { intros E. apply join_sp_empty_iff in E; [discriminate | exact H1']. }
    rewrite (juntar_nonempty _ _ J1 J2).
    change (join_sp (w :: w' :: l1)) with (w +:+ " " +:+ join_sp (w' :: l1)).
    rewrite juntar_nonempty; [| destruct w; [congruence | discriminate] | exact J2].
    rewrite !append_assoc. reflexivity.
Qed.

Lemma Forall_map_lower ws :
  Forall (fun w => w <> EmptyString) ws ->
  Forall (fun w => w <> EmptyString) (map Str.lower ws).
Proof.
  induction 1 as [|w ws Hw _ IH]; simpl; constructor; [|exact IH].
  destruct w; [congruence | discriminate].
Qed.

Lemma preprocessar_texto_concat (a b : string) :
  preprocessar_texto (PStr (a +:+ " " +:+ b))
  = juntar (preprocessar_texto (PStr a)) (preprocessar_texto (PStr b)).
Proof.
  assert (W : forall s, preprocessar_texto (PStr s)
                        = join_sp (map Str.lower (words s))).
  { intros s. simpl.
    rewrite (canon_fix Latin1.is_space)
      by (first [reflexivity | exact word_not_space
                | apply canon_re_sub_nonword]).
    rewrite strip_re_sub, words_lower. reflexivity. }
  rewrite !W, words_app_space, map_app.
  apply join_sp_app; apply Forall_map_lower, words_head_nonempty.
Qed.

Lemma preprocessar_texto_texto (v : pyval) :
  preprocessar_texto v = preprocessar_texto (PStr (texto v)).
Proof. destruct v; reflexivity. Qed.

(** X24. Normalising the two fields and joining them is the same as
    normalising the two raw texts put together with a space: the document
    of a worker is the normalised text of its skills, a space and its
    experience, and likewise for a job, a field that is absent or not a
    string counting as the empty text. *)
Theorem criar_documento_concat (item : dict) :
  criar_documento item (PStr "trabalhador")
  = preprocessar_texto
      (PStr (texto (dict_get item "habilidades") +:+ " "
             +:+ texto (dict_get item "experiencia")))
  /\ criar_documento item (PStr "vaga")
     = preprocessar_texto
         (PStr (texto (dict_get item "requisitos_habilidades") +:+ " "
                +:+ texto (dict_get item "descricao"))).
Proof.
  assert (J : forall a b : pyval,
            Str.strip (preprocessar_texto a +:+ " " +:+ preprocessar_texto b)
            = preprocessar_texto (PStr (texto a +:+ " " +:+ texto b))).
  { intros a b. rewrite preprocessar_texto_concat.
    rewrite <- !preprocessar_texto_texto.
    apply strip_join; apply preprocessar_texto_stripped. }
  split; apply J.
Qed.


Example words_exemplo :
  words "Python, ML!!  2023" = ["Python"; "ML"; "2023"]
  /\ join_sp (map Str.lower (words "Python, ML!!  2023")) = "python ml 2023".
Proof. split; reflexivity. Qed.
